(** * Shaping OpenStreetMap elements: a model of [convert_osm2sql.py]

    The development embeds [shape_element] and the regular expressions it
    uses, and proves the properties of the tag classification, of the
    way-node numbering and of the failure behaviour of the shaper.  It then
    embeds the table writers and the loop of [process_map] on top of it, and
    proves what a run hands to the database and when it stops. *)

From stdpp Require Import gmap strings list fin_maps.

Local Open Scope N_scope.

(** ** Strings

    A Python 3 [str] is a sequence of Unicode code points.  The XML parser
    hands attribute names and values over as [str], so a character is a
    code point here and not a byte. *)

Abbreviation str := (list N).

(** [lit] turns an ASCII literal into a [str]. *)
Definition lit (x : string) : str :=
  Ascii.N_of_ascii <$> String.list_ascii_of_string x.

Definition colon : N := 58.
Definition newline : N := 10.

(** ** The regular expressions *)

(** The first digit of every run of ten decimal digits of the Unicode
    character database (general category Nd, version 14.0.0; later
    versions add runs and take none away).  In a [str] pattern [\d]
    matches every such digit, not only [0-9]. *)
Definition Nd_zero : list N :=
  [ 0x30; 0x660; 0x6f0; 0x7c0; 0x966; 0x9e6; 0xa66; 0xae6; 0xb66; 0xbe6;
    0xc66; 0xce6; 0xd66; 0xde6; 0xe50; 0xed0; 0xf20; 0x1040; 0x1090; 0x17e0;
    0x1810; 0x1946; 0x19d0; 0x1a80; 0x1a90; 0x1b50; 0x1bb0; 0x1c40; 0x1c50;
    0xa620; 0xa8d0; 0xa900; 0xa9d0; 0xa9f0; 0xaa50; 0xabf0; 0xff10; 0x104a0;
    0x10d30; 0x11066; 0x110f0; 0x11136; 0x111d0; 0x112f0; 0x11450; 0x114d0;
    0x11650; 0x116c0; 0x11730; 0x118e0; 0x11950; 0x11c50; 0x11d50; 0x11da0;
    0x16a60; 0x16ac0; 0x16b50; 0x1d7ce; 0x1d7d8; 0x1d7e2; 0x1d7ec; 0x1d7f6;
    0x1e140; 0x1e2f0; 0x1e950; 0x1fbf0 ].

(** [\d] *)
Definition decimal_digit (c : N) : bool :=
  existsb (fun z => (z <=? c) && (c <? z + 10)) Nd_zero.

(** [a-z] *)
Definition lower_letter (c : N) : bool := (0x61 <=? c) && (c <=? 0x7a).

(** The class [[\da-z]] of [LOWER]. *)
Definition LOWER_class (c : N) : bool := decimal_digit c || lower_letter c.

(** The longest prefix of characters of a class, and what follows it. *)
Fixpoint span (p : N -> bool) (s : str) : str * str :=
  match s with
  | [] => ([], [])
  | c :: s' =>
      if p c then let (run, rest) := span p s' in (c :: run, rest)
      else ([], s)
  end.

(** [LOWER = re.compile(r'^[\da-z]+$')], used through [LOWER.match].  The
    greedy run takes every class character; without the MULTILINE flag [$]
    then holds at the end of the string and just before a newline that ends
    the string.  A shorter run is followed by a class character, where [$]
    fails, so backtracking finds nothing more. *)
Definition LOWER_match (s : str) : bool :=
  let (run, rest) := span LOWER_class s in
  match run, rest with
  | [], _ => false
  | _ :: _, [] => true
  | _ :: _, [c] => c =? newline
  | _ :: _, _ => false
  end.

(** The character class of the pattern [PROBLEMCHARS], in the order of the
    pattern: = + / & < > ; ' (double quote) ? % # $ @ , . (space) (tab)
    (carriage return) (newline).  The backslashes of the pattern only escape
    the character that follows them. *)
Definition PROBLEMCHARS_class : list N :=
  lit "=+/&<>;'" ++ [0x22] ++ lit "?%#$@,. " ++ [0x09; 0x0d; 0x0a].

(** [PROBLEMCHARS.search]: some character of the string is in the class. *)
Definition PROBLEMCHARS_search (s : str) : bool :=
  existsb (fun c => bool_decide (c ∈ PROBLEMCHARS_class)) s.

(** [re.split('[:]', s)]: the pieces between the colons; never empty. *)
Fixpoint re_split (s : str) : list str :=
  match s with
  | [] => [[]]
  | c :: s' =>
      if c =? colon then [] :: re_split s'
      else match re_split s' with
           | seg :: segs => (c :: seg) :: segs
           | [] => [[c]]
           end
  end.

(** [re.split('[:]', s, maxsplit=1)]: cut at the first colon only. *)
Fixpoint re_split_maxsplit1 (s : str) : list str :=
  match s with
  | [] => [[]]
  | c :: s' =>
      if c =? colon then [[]; s']
      else match re_split_maxsplit1 s' with
           | seg :: segs => (c :: seg) :: segs
           | [] => [[c]]
           end
  end.

(** ** Elements

    An [xml.etree] element: its tag, its attribute dictionary and its
    children in document order. *)
#[local] Unset Elimination Schemes.
Inductive Element : Type :=
  mkElement (tag : str) (attrib : gmap str str) (children : list Element).

#[local] Set Elimination Schemes.

Definition tag (e : Element) : str :=
  match e with mkElement t _ _ => t end.
Definition attrib (e : Element) : gmap str str :=
  match e with mkElement _ a _ => a end.
Definition children (e : Element) : list Element :=
  match e with mkElement _ _ cs => cs end.

(** [element.iter(name)]: the element itself and all its descendants, in
    document (depth first) order, kept when their tag is [name]. *)
Fixpoint iter (name : str) (e : Element) : list Element :=
  match e with
  | mkElement t _ cs =>
      (if decide (t = name) then [e] else []) ++
      (fix over (l : list Element) : list Element :=
         match l with
         | [] => []
         | c :: l' => iter name c ++ over l'
         end) cs
  end.

(** ** Exceptions

    The only exception [shape_element] can raise itself is the [KeyError] of
    a dictionary subscript [d[k]]; it carries the missing key. *)
Inductive Exception : Type :=
  KeyError (key : str).

Definition raises (A : Type) : Type := Exception + A.

(** Returning normally, and sequencing: an exception ends the computation. *)
#[export] Instance raises_ret : MRet raises := fun A x => inr x.

#[export] Instance raises_bind : MBind raises := fun A B f m =>
  match m with
  | inl exn => inl exn
  | inr x => f x
  end.

(** [d[k]] *)
Definition getitem (d : gmap str str) (k : str) : raises str :=
  match d !! k with
  | Some v => mret v
  | None => inl (KeyError k)
  end.

(** A [for] loop over a list whose body updates the loop state or raises. *)
Fixpoint for_each {A T} (body : T -> A -> raises T) (st : T) (l : list A)
  : raises T :=
  match l with
  | [] => mret st
  | x :: l' => st' ← body st x; for_each body st' l'
  end.

(** ** Records *)

(** The dictionary [{'id', 'key', 'value', 'type'}] of a secondary tag. *)
Record TagRecord : Type := mkTag {
  tag_id : str;
  tag_key : str;
  tag_value : str;
  tag_type : str
}.

(** The dictionary [{'id', 'node_id', 'position'}] of a way node;
    [position] is a Python integer. *)
Record WayNodeRecord : Type := mkWayNode {
  nd_id : str;
  nd_node_id : str;
  nd_position : Z
}.

(** What [shape_element] returns for a node and for a way: the
    dictionaries [{'node', 'node_tags'}] and
    [{'way', 'way_nodes', 'way_tags'}]. *)
Inductive Shaped : Type :=
  | ShapedNode (node : gmap str str) (node_tags : list TagRecord)
  | ShapedWay (way : gmap str str) (way_nodes : list WayNodeRecord)
              (way_tags : list TagRecord).

Definition NODE_FIELDS : list str :=
  [lit "id"; lit "lat"; lit "lon"; lit "user"; lit "uid"; lit "version";
   lit "changeset"; lit "timestamp"].

Definition WAY_FIELDS : list str :=
  [lit "id"; lit "user"; lit "uid"; lit "version"; lit "changeset";
   lit "timestamp"].

(** ** [shape_element] *)

(** The inner loop over the segments: [key_ok] ends up [False] as soon as
    one segment of the key does not match [LOWER]. *)
Definition key_ok (tag_k : str) : bool :=
  forallb LOWER_match (re_split tag_k).

(** The type and the key of an accepted tag: [tag_type] starts as the empty
    string and [tag_key] as the whole key; both are replaced when the split
    at the first colon has more than one piece. *)
Definition type_and_key (tag_k : str) : str * str :=
  let tag_k_split_list := re_split_maxsplit1 tag_k in
  if (1 <? length tag_k_split_list)%nat
  then (nth 0 tag_k_split_list [], nth 1 tag_k_split_list [])
  else ([], tag_k).

Section loops.
(** [problem_chars] is used through its [search] method only. *)
Variable problem_chars : str -> bool.
Variable element : Element.

(** The body of the loop over [element.iter('tag')].  The counter
    [tag_count] of the source is never read and is left out.  The type of
    a key without a colon is the empty string the source initialises
    [tag_type] with. *)
Definition tag_body (tags : list TagRecord) (t : Element)
  : raises (list TagRecord) :=
  tag_k ← getitem (attrib t) (lit "k");
  if negb (problem_chars tag_k) then
    if key_ok tag_k then
      let '(tag_type, tag_key) := type_and_key tag_k in
      id ← getitem (attrib element) (lit "id");
      v ← getitem (attrib t) (lit "v");
      mret (tags ++ [mkTag id tag_key v tag_type])
    else mret tags
  else mret tags.

(** The body of the loop over [element.iter('nd')]; the state is
    [(way_nodes, nd_pos)]. *)
Definition nd_body (st : list WayNodeRecord * Z) (t : Element)
  : raises (list WayNodeRecord * Z) :=
  let '(way_nodes, nd_pos) := st in
  id ← getitem (attrib element) (lit "id");
  ref ← getitem (attrib t) (lit "ref");
  mret (way_nodes ++ [mkWayNode id ref nd_pos], (nd_pos + 1)%Z).

(** [for key in fields: attribs.update({key: element.attrib[key]})] *)
Definition attr_body (attribs : gmap str str) (key : str)
  : raises (gmap str str) :=
  v ← getitem (attrib element) key;
  mret (<[key := v]> attribs).

Definition scan_tags : raises (list TagRecord) :=
  for_each tag_body [] (iter (lit "tag") element).

Definition scan_nd : raises (list WayNodeRecord * Z) :=
  for_each nd_body ([], 0%Z) (iter (lit "nd") element).
End loops.

(** [shape_element] with its keyword arguments.  Both scans run before the
    tag of the element is looked at; [default_tag_type] is not used; [None]
    is the value of a call that falls off the end of the function. *)
Definition shape_element_with (node_attr_fields way_attr_fields : list str)
    (problem_chars : str -> bool) (default_tag_type : str)
    (element : Element) : raises (option Shaped) :=
  tags ← scan_tags problem_chars element;
  '(way_nodes, _) ← scan_nd element;
  if decide (tag element = lit "node") then
    node_attribs ← for_each (attr_body element) ∅ node_attr_fields;
    mret (Some (ShapedNode node_attribs tags))
  else if decide (tag element = lit "way") then
    way_attribs ← for_each (attr_body element) ∅ way_attr_fields;
    mret (Some (ShapedWay way_attribs way_nodes tags))
  else mret None.

(** [shape_element(element)] with the default keyword arguments. *)
Definition shape_element (element : Element) : raises (option Shaped) :=
  shape_element_with NODE_FIELDS WAY_FIELDS PROBLEMCHARS_search
                     (lit "regular") element.

(** The classifier of the tag loop: a key is kept when it has no problem
    character and every segment matches [LOWER]. *)
Definition accepted (tag_k : str) : bool :=
  negb (PROBLEMCHARS_search tag_k) && key_ok tag_k.

(** ** The specification's vocabulary *)

(** The problem characters as the specification lists them:
    = + / & < > ; ' (double quote) ? % # $ @ , . (space) (tab) (newline)
    (carriage return). *)
Definition problem_characters : list N :=
  lit "=+/&<>;'" ++ [0x22] ++ lit "?%#$@,. " ++ [0x09; 0x0a; 0x0d].

(** The characters of the pattern [[0-9a-z]]. *)
Definition ascii_digit (c : N) : Prop := 0x30 <= c <= 0x39.
Definition ascii_lower (c : N) : Prop := 0x61 <= c <= 0x7a.

(** The segments joined with a colon between them. *)
Fixpoint join_colon (segs : list str) : str :=
  match segs with
  | [] => []
  | [seg] => seg
  | seg :: segs' => seg ++ colon :: join_colon segs'
  end.

(** [segs] are the segments of [k] split on every colon. *)
Definition split_on_colons (k : str) (segs : list str) : Prop :=
  segs <> [] /\ Forall (fun seg => colon ∉ seg) segs /\ join_colon segs = k.

(** Every segment is one or more characters of the class [P]. *)
Definition segments_in (P : N -> Prop) (segs : list str) : Prop :=
  Forall (fun seg => seg <> [] /\ Forall P seg) segs.

(** Building elements from literals. *)
Definition attrs (l : list (string * string)) : gmap str str :=
  list_to_map ((fun kv => (lit kv.1, lit kv.2)) <$> l).

Definition elem (name : string) (l : list (string * string))
    (cs : list Element) : Element :=
  mkElement (lit name) (attrs l) cs.

(** A computation returns normally, or raises a [KeyError]. *)
Definition returns {A} (m : raises A) : Prop := exists x, m = inr x.
Definition raised {A} (m : raises A) : Prop := exists key, m = inl (KeyError key).

(** What the tag loop needs of a tag to go on: the key, and for an
    accepted key the id of the element and the value of the tag. *)
Definition tag_readable (e t : Element) : Prop :=
  exists k, attrib t !! lit "k" = Some k /\
    (accepted k = true ->
     is_Some (attrib e !! lit "id") /\ is_Some (attrib t !! lit "v")).

(** What the reference loop needs: the id of the element and the ref. *)
Definition nd_readable (e t : Element) : Prop :=
  is_Some (attrib e !! lit "id") /\ is_Some (attrib t !! lit "ref").

(** The tag records and the way-node records of a result. *)
Definition shaped_tags (r : Shaped) : list TagRecord :=
  match r with
  | ShapedNode _ node_tags => node_tags
  | ShapedWay _ _ way_tags => way_tags
  end.

Definition shaped_way_nodes (r : Shaped) : list WayNodeRecord :=
  match r with
  | ShapedNode _ _ => []
  | ShapedWay _ way_nodes _ => way_nodes
  end.

(** ** Sample elements *)

(** The node and the way of the module's documentation. *)
Definition fast_food_attrs : list (string * string) :=
  [("id", "757860928"); ("user", "uboot"); ("uid", "26299");
   ("version", "2"); ("lat", "41.9747374"); ("lon", "-87.6920102");
   ("timestamp", "2010-07-22T16:16:51Z"); ("changeset", "5288876")].

Definition fast_food_node : Element :=
  elem "node" fast_food_attrs
    [elem "tag" [("k", "amenity"); ("v", "fast_food")] [];
     elem "tag" [("k", "cuisine"); ("v", "sausage")] [];
     elem "tag" [("k", "name"); ("v", "Shelly's Tasty Freeze")] []].

Definition ring_refs : list str :=
  lit <$> ["2199822281"; "2199822390"; "2199822392"; "2199822369";
           "2199822370"; "2199822284"; "2199822281"]%string.

Definition ring_way : Element :=
  mkElement (lit "way")
    (attrs [("id", "209809850"); ("user", "chicago-buildings");
            ("uid", "674454"); ("version", "1");
            ("timestamp", "2013-03-13T15:58:04Z"); ("changeset", "15353317")])
    (((fun r => mkElement (lit "nd") {[ lit "ref" := r ]} []) <$> ring_refs) ++
     [elem "tag" [("k", "addr:housenumber"); ("v", "1412")] [];
      elem "tag" [("k", "addr:street"); ("v", "West Lexington St.")] [];
      elem "tag" [("k", "addr:street:name"); ("v", "Lexington")] [];
      elem "tag" [("k", "building"); ("v", "yes")] []]).

(** A node without the [uid] attribute. *)
Definition node_without_uid : Element :=
  elem "node"
    [("id", "1"); ("user", "u"); ("version", "1"); ("lat", "0.0");
     ("lon", "0.0"); ("timestamp", "t"); ("changeset", "2")] [].

(** A tag without a value whose key has an uppercase letter, and a node
    that holds it. *)
Definition valueless_tag : Element := elem "tag" [("k", "Name")] [].

Definition node_with_valueless_tag : Element :=
  elem "node" fast_food_attrs [valueless_tag].

(** A tag with an accepted key and no value, in a way. *)
Definition way_with_valueless_tag : Element :=
  elem "way"
    [("id", "3"); ("user", "u"); ("uid", "4"); ("version", "1");
     ("timestamp", "t"); ("changeset", "2")]
    [elem "tag" [("k", "highway")] []].

(** Relations: one whose tag has no key, one that is well formed. *)
Definition relation_with_keyless_tag : Element :=
  elem "relation" [("id", "5")] [elem "tag" [("v", "multipolygon")] []].

Definition plain_relation : Element :=
  elem "relation" [("id", "5")]
    [elem "member" [("type", "way"); ("ref", "3"); ("role", "outer")] [];
     elem "tag" [("k", "type"); ("v", "multipolygon")] []].

(** Nodes with a reference sub-element, without and with its [ref]. *)
Definition node_with_bare_nd : Element :=
  elem "node" fast_food_attrs [elem "nd" [] []].

Definition node_with_nd : Element :=
  elem "node" fast_food_attrs [elem "nd" [("ref", "42")] []].

(** ** More of a shaped result *)

(** The dictionary of the element's own attributes in a result, and the
    field list it was copied from. *)
Definition shaped_attribs (r : Shaped) : gmap str str :=
  match r with
  | ShapedNode node _ => node
  | ShapedWay way _ _ => way
  end.

Definition shaped_fields (r : Shaped) : list str :=
  match r with
  | ShapedNode _ _ => NODE_FIELDS
  | ShapedWay _ _ _ => WAY_FIELDS
  end.

(** The record a tag sub-element contributes to an element with the given
    id: none when its key is missing or rejected. *)
Definition tag_record (id : str) (t : Element) : option TagRecord :=
  k ← attrib t !! lit "k";
  if accepted k then
    v ← attrib t !! lit "v";
    Some (mkTag id (type_and_key k).2 v (type_and_key k).1)
  else None.

(** ** The run: [process_map] and its writers *)

Definition NODE_TAGS_FIELDS : list str :=
  [lit "id"; lit "key"; lit "value"; lit "type"].

Definition WAY_TAGS_FIELDS : list str :=
  [lit "id"; lit "key"; lit "value"; lit "type"].

Definition WAY_NODES_FIELDS : list str :=
  [lit "id"; lit "node_id"; lit "position"].

(** A row handed to a writer: one of the dictionaries [shape_element]
    builds. *)
Inductive Row : Type :=
  | AttribRow (attribs : gmap str str)
  | TagRow (t : TagRecord)
  | WayNodeRow (n : WayNodeRecord).

(** What a run does to the outside: the lines it prints and the batches
    it hands to the database.  [to_sql tn tc rows] is the call
    [DataFrame(rows, columns=tc).to_sql(tn, db, if_exists="append")]. *)
Inductive Effect : Type :=
  | print_processing
  | print_parsing (counter_disp : Z)
  | print_done
  | print_committing
  | to_sql (tn : str) (tc : list str) (rows : list Row).

(** [Sqlite3TableWriter]: the table name, the columns and the cached
    rows.  The connection is not modelled, and [cache_pdf] is left out: it
    is written by [commit_db] only and read nowhere else. *)
Record Sqlite3TableWriter : Type := mkWriter {
  tn : str;
  tc : list str;
  cache_list : list Row
}.

(** [Sqlite3TableWriter(dbfile, table_name, table_columns)] *)
Definition new_writer (table_name : str) (table_columns : list str)
  : Sqlite3TableWriter :=
  mkWriter table_name table_columns [].

(** [writerow]: [self.cache_list.append(row)] *)
Definition writerow (w : Sqlite3TableWriter) (row : Row) : Sqlite3TableWriter :=
  mkWriter (tn w) (tc w) (cache_list w ++ [row]).

(** [writerows]: [for row in rows: self.writerow(row)] *)
Definition writerows (w : Sqlite3TableWriter) (rows : list Row)
  : Sqlite3TableWriter :=
  fold_left writerow rows w.

(** [commit_db]: the whole cache goes to the table in one batch; the
    cache is not emptied. *)
Definition commit_db (w : Sqlite3TableWriter) : Effect :=
  to_sql (tn w) (tc w) (cache_list w).

(** The five writers of [process_map]. *)
Record Writers : Type := mkWriters {
  nodes_writer : Sqlite3TableWriter;
  node_tags_writer : Sqlite3TableWriter;
  ways_writer : Sqlite3TableWriter;
  way_nodes_writer : Sqlite3TableWriter;
  way_tags_writer : Sqlite3TableWriter
}.

(** The exceptions that end a run: a [KeyError], the [Exception] of
    [validate_element] with the field and the pretty-printed errors its
    message is made of, and the [StopIteration] of [next] on an empty
    error dictionary. *)
Inductive RunException : Type :=
  | Raised (exn : Exception)
  | ValidationException (field errors : str)
  | StopIteration.

(** The subscripts [el['node']], [el['node_tags']], [el['way']],
    [el['way_nodes']] and [el['way_tags']] of a result. *)
Definition el_node (el : Shaped) : raises (gmap str str) :=
  match el with
  | ShapedNode node _ => inr node
  | ShapedWay _ _ _ => inl (KeyError (lit "node"))
  end.

Definition el_node_tags (el : Shaped) : raises (list TagRecord) :=
  match el with
  | ShapedNode _ node_tags => inr node_tags
  | ShapedWay _ _ _ => inl (KeyError (lit "node_tags"))
  end.

Definition el_way (el : Shaped) : raises (gmap str str) :=
  match el with
  | ShapedWay way _ _ => inr way
  | ShapedNode _ _ => inl (KeyError (lit "way"))
  end.

Definition el_way_nodes (el : Shaped) : raises (list WayNodeRecord) :=
  match el with
  | ShapedWay _ way_nodes _ => inr way_nodes
  | ShapedNode _ _ => inl (KeyError (lit "way_nodes"))
  end.

Definition el_way_tags (el : Shaped) : raises (list TagRecord) :=
  match el with
  | ShapedWay _ _ way_tags => inr way_tags
  | ShapedNode _ _ => inl (KeyError (lit "way_tags"))
  end.

(** The state of the loop of [process_map]: the two counters of the
    ticker, the writers and what has been printed so far. *)
Record LoopState : Type := mkLoop {
  counter : Z;
  counter_disp : Z;
  writers : Writers;
  printed : list Effect
}.

(** The ticker at the head of the loop body. *)
Definition tick (st : LoopState) : LoopState :=
  let counter := (counter st + 1)%Z in
  if (100000 <? counter)%Z then
    let counter_disp := (counter_disp st + 1)%Z in
    mkLoop 0 counter_disp (writers st)
           (printed st ++ [print_parsing counter_disp])
  else mkLoop counter (counter_disp st) (writers st) (printed st).

(** The writes of the loop body, chosen by the tag of the element.  A
    subscript that raises leaves the writers written before it as they
    are. *)
Definition write_element (ws : Writers) (element : Element) (el : Shaped)
  : Writers * option Exception :=
  if decide (tag element = lit "node") then
    match el_node el with
    | inl exn => (ws, Some exn)
    | inr node =>
        let ws := mkWriters (writerow (nodes_writer ws) (AttribRow node))
                    (node_tags_writer ws) (ways_writer ws)
                    (way_nodes_writer ws) (way_tags_writer ws) in
        match el_node_tags el with
        | inl exn => (ws, Some exn)
        | inr node_tags =>
            (mkWriters (nodes_writer ws)
               (writerows (node_tags_writer ws) (TagRow <$> node_tags))
               (ways_writer ws) (way_nodes_writer ws) (way_tags_writer ws),
             None)
        end
    end
  else if decide (tag element = lit "way") then
    match el_way el with
    | inl exn => (ws, Some exn)
    | inr way =>
        let ws := mkWriters (nodes_writer ws) (node_tags_writer ws)
                    (writerow (ways_writer ws) (AttribRow way))
                    (way_nodes_writer ws) (way_tags_writer ws) in
        match el_way_nodes el with
        | inl exn => (ws, Some exn)
        | inr way_nodes =>
            let ws := mkWriters (nodes_writer ws) (node_tags_writer ws)
                        (ways_writer ws)
                        (writerows (way_nodes_writer ws)
                                   (WayNodeRow <$> way_nodes))
                        (way_tags_writer ws) in
            match el_way_tags el with
            | inl exn => (ws, Some exn)
            | inr way_tags =>
                (mkWriters (nodes_writer ws) (node_tags_writer ws)
                   (ways_writer ws) (way_nodes_writer ws)
                   (writerows (way_tags_writer ws) (TagRow <$> way_tags)),
                 None)
            end
        end
    end
  else (ws, None).

Section process_map.
(** The validator of the [cerberus] library with the schema of
    [schema.py], neither of which is part of the sources:
    [validator_validate el] is the value of
    [validator.validate(el, schema) is True], and [validator_errors el]
    are the items of [validator.errors] after that call, each with its
    errors pretty-printed. *)
Variable validator_validate : Shaped -> bool.
Variable validator_errors : Shaped -> list (str * str).

(** [validate_element]: nothing when the validator accepts; else the
    exception for the first item of the errors. *)
Definition validate_element (el : Shaped) : option RunException :=
  if validator_validate el then None
  else match validator_errors el with
       | [] => Some StopIteration
       | (field, errors) :: _ => Some (ValidationException field errors)
       end.

(** One turn of the loop over the elements; the state it returns is the
    state reached when the turn ended or raised. *)
Definition loop_body (validate : bool) (st : LoopState) (element : Element)
  : LoopState * option RunException :=
  let st := tick st in
  match shape_element element with
  | inl exn => (st, Some (Raised exn))
  | inr None => (st, None)
  | inr (Some el) =>
      match (if validate then validate_element el else None) with
      | Some exn => (st, Some exn)
      | None =>
          let '(ws, exn) := write_element (writers st) element el in
          (mkLoop (counter st) (counter_disp st) ws (printed st),
           Raised <$> exn)
      end
  end.

Fixpoint loop (validate : bool) (st : LoopState) (elements : list Element)
  : LoopState * option RunException :=
  match elements with
  | [] => (st, None)
  | element :: elements' =>
      match loop_body validate st element with
      | (st', Some exn) => (st', Some exn)
      | (st', None) => loop validate st' elements'
      end
  end.

(** The writers and counters [process_map] starts with. *)
Definition initial_state : LoopState :=
  mkLoop 0 0
    (mkWriters (new_writer (lit "nodes") NODE_FIELDS)
               (new_writer (lit "nodes_tags") NODE_TAGS_FIELDS)
               (new_writer (lit "ways") WAY_FIELDS)
               (new_writer (lit "ways_nodes") WAY_NODES_FIELDS)
               (new_writer (lit "ways_tags") WAY_TAGS_FIELDS))
    [print_processing].

(** The commits after the loop, in the order of the source. *)
Definition commits (ws : Writers) : list Effect :=
  [print_done;
   print_committing; commit_db (nodes_writer ws);
   print_committing; commit_db (node_tags_writer ws);
   print_committing; commit_db (ways_writer ws);
   print_committing; commit_db (way_nodes_writer ws);
   print_committing; commit_db (way_tags_writer ws)].

(** [process_map], on the elements [get_element(file_in, tags=('node',
    'way'))] yields, in the order it yields them: what the run does to
    the outside and the exception that ends it, if any. *)
Definition process_map (elements : list Element) (validate : bool)
  : list Effect * option RunException :=
  match loop validate initial_state elements with
  | (st, Some exn) => (printed st, Some exn)
  | (st, None) => (printed st ++ commits (writers st), None)
  end.
End process_map.

(** The batches of a run, and the numbers of its ticker lines. *)
Definition batches (effects : list Effect) : list (str * list str * list Row) :=
  omap (fun eff => match eff with
                   | to_sql tn tc rows => Some (tn, tc, rows)
                   | _ => None
                   end) effects.

Definition ticks (effects : list Effect) : list Z :=
  omap (fun eff => match eff with
                   | print_parsing counter_disp => Some counter_disp
                   | _ => None
                   end) effects.

(** The rows an element contributes to each table when it is shaped. *)
Definition rows_of (f : Shaped -> list Row) (elements : list Element)
  : list Row :=
  elements ≫= fun element =>
    match shape_element element with
    | inr (Some el) => f el
    | _ => []
    end.

Definition nodes_rows (el : Shaped) : list Row :=
  match el with
  | ShapedNode node _ => [AttribRow node]
  | ShapedWay _ _ _ => []
  end.

Definition nodes_tags_rows (el : Shaped) : list Row :=
  match el with
  | ShapedNode _ node_tags => TagRow <$> node_tags
  | ShapedWay _ _ _ => []
  end.

Definition ways_rows (el : Shaped) : list Row :=
  match el with
  | ShapedWay way _ _ => [AttribRow way]
  | ShapedNode _ _ => []
  end.

Definition ways_nodes_rows (el : Shaped) : list Row :=
  match el with
  | ShapedWay _ way_nodes _ => WayNodeRow <$> way_nodes
  | ShapedNode _ _ => []
  end.

Definition ways_tags_rows (el : Shaped) : list Row :=
  match el with
  | ShapedWay _ _ way_tags => TagRow <$> way_tags
  | ShapedNode _ _ => []
  end.

(** A writer with more rows in its cache, and the writers after the rows
    of a list of elements have been added. *)
Definition extend (w : Sqlite3TableWriter) (rows : list Row)
  : Sqlite3TableWriter :=
  mkWriter (tn w) (tc w) (cache_list w ++ rows).

Definition writers_after (ws : Writers) (elements : list Element) : Writers :=
  mkWriters
    (extend (nodes_writer ws) (rows_of nodes_rows elements))
    (extend (node_tags_writer ws) (rows_of nodes_tags_rows elements))
    (extend (ways_writer ws) (rows_of ways_rows elements))
    (extend (way_nodes_writer ws) (rows_of ways_nodes_rows elements))
    (extend (way_tags_writer ws) (rows_of ways_tags_rows elements)).

(** A validator that accepts everything. *)
Definition accept_all (el : Shaped) : bool := true.
Definition no_errors (el : Shaped) : list (str * str) := [].

(** A validator that rejects everything, with one error to report. *)
Definition reject_all (el : Shaped) : bool := false.
Definition one_error (el : Shaped) : list (str * str) :=
  [(lit "node", lit "{'id': ['must be of integer type']}")].

(** The exception a turn of the loop ends with, if any, and the state
    after a turn that ends without one. *)
Definition turn_exception (validator_validate : Shaped -> bool)
    (validator_errors : Shaped -> list (str * str)) (validate : bool)
    (element : Element) : option RunException :=
  match shape_element element with
  | inl exn => Some (Raised exn)
  | inr None => None
  | inr (Some el) =>
      if validate then validate_element validator_validate validator_errors el
      else None
  end.

Definition after_turn (st : LoopState) (element : Element) : LoopState :=
  mkLoop (counter (tick st)) (counter_disp (tick st))
         (writers_after (writers st) [element]) (printed (tick st)).

(** What the ticker keeps true after [n] turns of the loop. *)
Definition ticker_invariant (st : LoopState) (n : Z) : Prop :=
  (0 <= counter st <= 100000)%Z /\ (0 <= counter_disp st)%Z /\
  (counter_disp st * 100001 + counter st = n)%Z /\
  ticks (printed st) = Z.of_nat <$> seq 1 (Z.to_nat (counter_disp st)).

(** A relation without attributes and children. *)
Definition bare_relation : Element := mkElement (lit "relation") ∅ [].

(** The documentation's node, with the tag of a way. *)
Definition fast_food_as_way : Element :=
  mkElement (lit "way") (attrs fast_food_attrs) (children fast_food_node).

(** ** Strings and patterns *)

Lemma PROBLEMCHARS_search_true (k : str) :
  PROBLEMCHARS_search k = true <->
  exists c, c ∈ k /\ c ∈ PROBLEMCHARS_class.
Proof.
  unfold PROBLEMCHARS_search. rewrite existsb_exists. split.
  - intros (c & Hin & Hc). exists c. split.
    + by apply list_elem_of_In.
    + by apply bool_decide_eq_true in Hc.
  - intros (c & Hin & Hc). exists c. split.
    + by apply list_elem_of_In.
    + by apply bool_decide_eq_true.
Qed.

Lemma problem_characters_class (c : N) :
  c ∈ problem_characters <-> c ∈ PROBLEMCHARS_class.
Proof.
  unfold problem_characters, PROBLEMCHARS_class.
  rewrite !elem_of_app. rewrite !elem_of_cons. rewrite !elem_of_nil. tauto.
Qed.

Lemma PROBLEMCHARS_search_false (k : str) :
  PROBLEMCHARS_search k = false <-> Forall (fun c => c ∉ problem_characters) k.
Proof.
  rewrite <- not_true_iff_false, PROBLEMCHARS_search_true, Forall_forall.
  split.
  - intros Hno c Hin Hc. apply Hno. exists c. split; [done|].
    by apply problem_characters_class.
  - intros Hall (c & Hin & Hc). apply (Hall c Hin).
    by apply problem_characters_class.
Qed.

Lemma span_spec (p : N -> bool) (s run rest : str) :
  span p s = (run, rest) ->
  s = run ++ rest /\ Forall (fun c => p c = true) run /\
  (forall c, head rest = Some c -> p c = false).
Proof.
  revert run rest. induction s as [|c s IH]; intros run rest; simpl.
  - intros [= <- <-]. split_and!; [done|constructor|done].
  - destruct (p c) eqn:Hp.
    + destruct (span p s) as [run' rest']. intros [= <- <-].
      destruct (IH _ _ eq_refl) as (-> & Hrun & Hrest).
      split_and!; [done|by constructor|done].
    + intros [= <- <-]. split_and!; [done|constructor|].
      simpl. by intros ? [= <-].
Qed.

Lemma span_all (p : N -> bool) (s : str) :
  Forall (fun c => p c = true) s -> span p s = (s, []).
Proof.
  induction 1 as [|c s Hc _ IH]; simpl; [done|]. by rewrite Hc, IH.
Qed.

(** Without a trailing newline in sight, [LOWER] matches the non-empty
    strings of class characters. *)
Lemma LOWER_match_spec (s : str) :
  newline ∉ s ->
  LOWER_match s = true <->
  s <> [] /\ Forall (fun c => LOWER_class c = true) s.
Proof.
  intros Hnl. unfold LOWER_match. split.
  - destruct (span LOWER_class s) as [run rest] eqn:Hspan.
    apply span_spec in Hspan as (-> & Hrun & Hrest).
    destruct run as [|c run]; [done|].
    destruct rest as [|d [|d' rest]]; [|intros Hd|done].
    + intros _. by rewrite app_nil_r.
    + apply N.eqb_eq in Hd as ->. exfalso. apply Hnl.
      rewrite elem_of_app. right. by left.
  - intros [Hne Hall]. rewrite (span_all _ _ Hall). by destruct s.
Qed.

Example LOWER_non_ascii : LOWER_match [0x663] = true.
Proof. reflexivity. Qed.
Example LOWER_trailing_newline : LOWER_match (lit "a1" ++ [newline]) = true.
Proof. reflexivity. Qed.

(** *** Splitting on colons *)

Lemma re_split_plain (s : str) : colon ∉ s -> re_split s = [s].
Proof.
  induction s as [|c s IH]; intros Hc; simpl; [done|].
  apply not_elem_of_cons in Hc as [Hne Hs].
  destruct (N.eqb_spec c colon) as [->|_]; [done|]. by rewrite IH.
Qed.

Lemma re_split_cut (seg s : str) :
  colon ∉ seg -> re_split (seg ++ colon :: s) = seg :: re_split s.
Proof.
  induction seg as [|c seg IH]; intros Hc; simpl.
  - by rewrite ?N.eqb_refl.
  - apply not_elem_of_cons in Hc as [Hne Hs].
    destruct (N.eqb_spec c colon) as [->|_]; [done|]. by rewrite IH.
Qed.

Lemma re_split_of_join (segs : list str) :
  segs <> [] -> Forall (fun seg => colon ∉ seg) segs ->
  re_split (join_colon segs) = segs.
Proof.
  intros Hne Hall. induction Hall as [|seg segs Hseg Hall IH]; [done|].
  destruct segs as [|seg' segs].
  - simpl. by apply re_split_plain.
  - change (join_colon (seg :: seg' :: segs))
      with (seg ++ colon :: join_colon (seg' :: segs)).
    rewrite re_split_cut by done. by rewrite IH.
Qed.

Lemma re_split_segments (k : str) : split_on_colons k (re_split k).
Proof.
  unfold split_on_colons. induction k as [|c k (Hne & Hall & Hjoin)]; simpl.
  - split_and!; [done| |done]. constructor; [|constructor]. by intros ?%elem_of_nil.
  - destruct (N.eqb_spec c colon) as [->|Hc].
    + split_and!; [done| |].
      * constructor; [|done]. by intros ?%elem_of_nil.
      * destruct (re_split k); [done|]. simpl in *. by rewrite Hjoin.
    + destruct (re_split k) as [|seg segs]; [done|].
      apply Forall_cons in Hall as [Hseg Hall].
      split_and!; [done| |].
      * constructor; [|done]. by intros [?|?]%elem_of_cons.
      * destruct segs; simpl in *; by rewrite Hjoin.
Qed.

(** The split on every colon is the only list of colon-free segments that
    joins back to the key. *)
Lemma split_on_colons_unique (k : str) (segs : list str) :
  split_on_colons k segs <-> segs = re_split k.
Proof.
  split.
  - intros (Hne & Hall & <-). by rewrite re_split_of_join.
  - intros ->. apply re_split_segments.
Qed.

Lemma re_split_maxsplit1_plain (s : str) :
  colon ∉ s -> re_split_maxsplit1 s = [s].
Proof.
  induction s as [|c s IH]; intros Hc; simpl; [done|].
  apply not_elem_of_cons in Hc as [Hne Hs].
  destruct (N.eqb_spec c colon) as [->|_]; [done|]. by rewrite IH.
Qed.

Lemma re_split_maxsplit1_cut (pre post : str) :
  colon ∉ pre -> re_split_maxsplit1 (pre ++ colon :: post) = [pre; post].
Proof.
  induction pre as [|c pre IH]; intros Hc; simpl.
  - by rewrite ?N.eqb_refl.
  - apply not_elem_of_cons in Hc as [Hne Hs].
    destruct (N.eqb_spec c colon) as [->|_]; [done|]. by rewrite IH.
Qed.

Lemma type_and_key_plain (k : str) : colon ∉ k -> type_and_key k = ([], k).
Proof.
  intros Hc. unfold type_and_key. by rewrite re_split_maxsplit1_plain.
Qed.

Lemma type_and_key_cut (pre post : str) :
  colon ∉ pre -> type_and_key (pre ++ colon :: post) = (pre, post).
Proof.
  intros Hc. unfold type_and_key. by rewrite re_split_maxsplit1_cut.
Qed.

(** *** The classifier *)

Lemma key_ok_spec (k : str) :
  newline ∉ k ->
  key_ok k = true <->
  Forall (fun seg => seg <> [] /\ Forall (fun c => LOWER_class c = true) seg)
         (re_split k).
Proof.
  intros Hnl. unfold key_ok. rewrite forallb_forall, Forall_forall.
  assert (Hsegs : forall seg, seg ∈ re_split k -> newline ∉ seg).
  { destruct (re_split_segments k) as (_ & _ & Hjoin).
    rewrite <- Hjoin in Hnl. clear Hjoin.
    induction (re_split k) as [|s [|s' segs] IH]; intros seg Hin.
    - by apply elem_of_nil in Hin.
    - apply list_elem_of_singleton in Hin as ->. done.
    - change (newline ∉ s ++ colon :: join_colon (s' :: segs)) in Hnl.
      rewrite elem_of_app, elem_of_cons in Hnl.
      apply elem_of_cons in Hin as [->|Hin]; [tauto|].
      apply IH; [tauto|done]. }
  split.
  - intros H seg Hin. apply LOWER_match_spec; [by apply Hsegs|].
    apply H. by apply list_elem_of_In.
  - intros H seg Hin%list_elem_of_In.
    apply LOWER_match_spec; [by apply Hsegs|]. by apply H.
Qed.

(** ** Loops that may raise *)

Lemma returns_or_raised {A} (m : raises A) : returns m \/ raised m.
Proof. destruct m as [[key]|x]; [right|left]; eexists; done. Qed.

Lemma not_returns_raised {A} (m : raises A) : ~ returns m <-> raised m.
Proof.
  split.
  - intros Hn. by destruct (returns_or_raised m).
  - intros [key ->] [x Hx]. done.
Qed.

Section for_each.
Context {A T : Type} (body : T -> A -> raises T).

Lemma for_each_app (st : T) (l1 l2 : list A) :
  for_each body st (l1 ++ l2) =
  st' ← for_each body st l1; for_each body st' l2.
Proof.
  revert st. induction l1 as [|x l1 IH]; intros st; simpl; [done|].
  destruct (body st x) as [exn|st']; simpl; [done|]. apply IH.
Qed.

(** When returning from the body depends on the item only, the loop
    returns exactly when the body returns on every item. *)
Lemma for_each_returns_iff (P : A -> Prop) (l : list A) :
  (forall st x, returns (body st x) <-> P x) ->
  forall st, returns (for_each body st l) <-> Forall P l.
Proof.
  intros HP. induction l as [|x l IH]; intros st; simpl.
  - split; [constructor|]. intros _. by exists st.
  - rewrite Forall_cons, <- (HP st x). split.
    + destruct (body st x) as [exn|st'] eqn:Hb; simpl.
      * by intros [? ?].
      * intros Hl. split; [by eexists|]. by apply (IH st').
    + intros [[st' ->] Hl]. simpl. by apply IH.
Qed.

Lemma for_each_raised (P : A -> Prop) (l : list A) (x : A) :
  (forall st x, returns (body st x) <-> P x) ->
  x ∈ l -> ~ P x -> forall st, raised (for_each body st l).
Proof.
  intros HP Hin HnP st. apply not_returns_raised.
  rewrite (for_each_returns_iff P l HP), Forall_forall. intros Hall.
  by apply HnP, Hall.
Qed.
End for_each.

(** ** The loop bodies *)

Lemma tag_body_unfold (e : Element) (tags : list TagRecord) (t : Element) :
  tag_body PROBLEMCHARS_search e tags t =
  match attrib t !! lit "k" with
  | None => inl (KeyError (lit "k"))
  | Some k =>
      if accepted k then
        match attrib e !! lit "id" with
        | None => inl (KeyError (lit "id"))
        | Some id =>
            match attrib t !! lit "v" with
            | None => inl (KeyError (lit "v"))
            | Some v =>
                inr (tags ++ [mkTag id (type_and_key k).2 v (type_and_key k).1])
            end
        end
      else inr tags
  end.
Proof.
  unfold tag_body, accepted, getitem.
  destruct (attrib t !! lit "k") as [k|]; simpl; [|done].
  destruct (PROBLEMCHARS_search k); simpl; [done|].
  destruct (key_ok k); [|done].
  destruct (type_and_key k) as [ty ke].
  destruct (attrib e !! lit "id") as [id|]; simpl; [|done].
  by destruct (attrib t !! lit "v").
Qed.

Lemma tag_body_returns (e : Element) (tags : list TagRecord) (t : Element) :
  returns (tag_body PROBLEMCHARS_search e tags t) <-> tag_readable e t.
Proof.
  rewrite tag_body_unfold. unfold tag_readable, returns.
  destruct (attrib t !! lit "k") as [k|];
    [|split; [by intros [? ?]|by intros (? & ? & ?)]].
  destruct (accepted k) eqn:Hacc.
  - split.
    + intros [x Hx]. exists k. split; [done|]. intros _.
      destruct (attrib e !! lit "id"), (attrib t !! lit "v"); try discriminate.
      split; by eexists.
    + intros (k' & [= <-] & H). destruct (H Hacc) as [[i ->] [v ->]].
      by eexists.
  - split; [|intros _; by eexists]. intros _. exists k. split; [done|].
    by rewrite Hacc.
Qed.

Lemma nd_body_unfold (e : Element) (way_nodes : list WayNodeRecord) (nd_pos : Z)
    (t : Element) :
  nd_body e (way_nodes, nd_pos) t =
  match attrib e !! lit "id" with
  | None => inl (KeyError (lit "id"))
  | Some id =>
      match attrib t !! lit "ref" with
      | None => inl (KeyError (lit "ref"))
      | Some ref =>
          inr (way_nodes ++ [mkWayNode id ref nd_pos], (nd_pos + 1)%Z)
      end
  end.
Proof.
  unfold nd_body, getitem.
  destruct (attrib e !! lit "id") as [id|]; simpl; [|done].
  by destruct (attrib t !! lit "ref").
Qed.

Lemma nd_body_returns (e : Element) (st : list WayNodeRecord * Z) (t : Element) :
  returns (nd_body e st t) <-> nd_readable e t.
Proof.
  destruct st as [way_nodes nd_pos]. rewrite nd_body_unfold.
  unfold nd_readable, returns, is_Some.
  destruct (attrib e !! lit "id") as [id|], (attrib t !! lit "ref") as [ref|];
    split; try (intros [x Hx]; discriminate Hx);
    try (intros [[? ?] [? ?]]; discriminate).
  - intros _. split; by eexists.
  - intros _. by eexists.
Qed.

Lemma attr_body_returns (e : Element) (attribs : gmap str str) (key : str) :
  returns (attr_body e attribs key) <-> is_Some (attrib e !! key).
Proof.
  unfold attr_body, getitem, returns, is_Some.
  destruct (attrib e !! key) as [v|]; simpl; split; intros [x Hx]; try done;
    by eexists.
Qed.

(** ** The scans *)

Lemma child_in_iter (name : str) (e t : Element) :
  t ∈ children e -> tag t = name -> t ∈ iter name e.
Proof.
  destruct e as [tg a cs]. simpl. intros Hin Htag.
  apply elem_of_app. right.
  induction cs as [|c cs IH]; [by apply elem_of_nil in Hin|].
  apply elem_of_app. apply elem_of_cons in Hin as [<-|Hin].
  - left. destruct t as [tg' a' cs']. simpl in *. subst tg'.
    apply elem_of_app. left. rewrite decide_True by done. by left.
  - right. by apply IH.
Qed.

Lemma scan_tags_returns (e : Element) :
  returns (scan_tags PROBLEMCHARS_search e) <->
  Forall (tag_readable e) (iter (lit "tag") e).
Proof.
  apply for_each_returns_iff. intros st x. apply tag_body_returns.
Qed.

Lemma scan_nd_returns (e : Element) :
  returns (scan_nd e) <-> Forall (nd_readable e) (iter (lit "nd") e).
Proof.
  apply for_each_returns_iff. intros st x. apply nd_body_returns.
Qed.

Lemma copy_returns (e : Element) (fields : list str) :
  returns (for_each (attr_body e) ∅ fields) <->
  Forall (fun k => is_Some (attrib e !! k)) fields.
Proof.
  apply for_each_returns_iff. intros st x. apply attr_body_returns.
Qed.

(** Every record the tag loop adds carries the id of the element. *)
Lemma tag_loop_inv (e : Element) (l : list Element) (acc tags : list TagRecord) :
  for_each (tag_body PROBLEMCHARS_search e) acc l = inr tags ->
  exists new, tags = acc ++ new /\
    Forall (fun r => attrib e !! lit "id" = Some (tag_id r)) new.
Proof.
  revert acc. induction l as [|t l IH]; intros acc; simpl.
  - intros [= <-]. exists []. by rewrite app_nil_r.
  - rewrite tag_body_unfold.
    destruct (attrib t !! lit "k") as [k|]; [|done].
    destruct (accepted k); [|apply IH].
    destruct (attrib e !! lit "id") as [id|] eqn:Hid; [|done].
    destruct (attrib t !! lit "v") as [v|]; [|done]. simpl.
    intros (new & -> & Hnew)%IH. eexists (_ :: new).
    rewrite <- app_assoc. split; [done|]. by constructor.
Qed.

(** The reference loop adds one record per reference, in order, numbered
    from the running position on. *)
Lemma nd_loop_inv (e : Element) (l : list Element)
    (acc wn : list WayNodeRecord) (p p' : Z) :
  for_each (nd_body e) (acc, p) l = inr (wn, p') ->
  exists new, wn = acc ++ new /\
    Forall2 (fun t r => attrib t !! lit "ref" = Some (nd_node_id r)) l new /\
    nd_position <$> new = (fun n => (p + Z.of_nat n)%Z) <$> seq 0 (length l) /\
    Forall (fun r => attrib e !! lit "id" = Some (nd_id r)) new.
Proof.
  revert acc p. induction l as [|t l IH]; intros acc p.
  - simpl. intros [= <- <-]. exists []. rewrite app_nil_r.
    split_and!; [done|constructor|done|constructor].
  - change (for_each (nd_body e) (acc, p) (t :: l))
      with (st' ← nd_body e (acc, p) t; for_each (nd_body e) st' l).
    rewrite nd_body_unfold.
    destruct (attrib e !! lit "id") as [id|] eqn:Hid; [|done].
    destruct (attrib t !! lit "ref") as [ref|] eqn:Href; [|done].
    intros (new & -> & Hrefs & Hpos & Hids)%IH.
    exists (mkWayNode id ref p :: new). rewrite <- app_assoc.
    split_and!; [done|by constructor| |by constructor].
    rewrite fmap_cons, Hpos. cbn [length seq nd_position].
    rewrite fmap_cons, <- fmap_S_seq, <- list_fmap_compose.
    f_equal; [lia|]. apply list_fmap_ext. intros _ n _. simpl. lia.
Qed.

Lemma refs_functional (l : list Element) (new : list WayNodeRecord)
    (refs : list str) :
  Forall2 (fun t r => attrib t !! lit "ref" = Some (nd_node_id r)) l new ->
  (fun t => attrib t !! lit "ref") <$> l = Some <$> refs ->
  nd_node_id <$> new = refs.
Proof.
  intros H. revert refs. induction H as [|t r l new Hr _ IH]; intros refs.
  - destruct refs; [done|]. rewrite fmap_cons. discriminate.
  - destruct refs as [|r' refs]; rewrite !fmap_cons; [discriminate|].
    intros [= Hr' Hrefs]. rewrite (IH _ Hrefs). congruence.
Qed.

Lemma refs_readable (l : list Element) (refs : list str) :
  (fun t => attrib t !! lit "ref") <$> l = Some <$> refs ->
  Forall (fun t => is_Some (attrib t !! lit "ref")) l.
Proof.
  revert refs. induction l as [|t l IH]; intros refs; [constructor|].
  destruct refs as [|r refs]; rewrite !fmap_cons; [discriminate|].
  intros [= Hr Hrefs]. constructor; [by eexists|by eapply IH].
Qed.

(** ** [shape_element], step by step *)

Lemma shape_element_unfold (e : Element) :
  shape_element e =
  match scan_tags PROBLEMCHARS_search e with
  | inl exn => inl exn
  | inr tags =>
      match scan_nd e with
      | inl exn => inl exn
      | inr (way_nodes, _) =>
          if decide (tag e = lit "node") then
            match for_each (attr_body e) ∅ NODE_FIELDS with
            | inl exn => inl exn
            | inr node_attribs => inr (Some (ShapedNode node_attribs tags))
            end
          else if decide (tag e = lit "way") then
            match for_each (attr_body e) ∅ WAY_FIELDS with
            | inl exn => inl exn
            | inr way_attribs =>
                inr (Some (ShapedWay way_attribs way_nodes tags))
            end
          else inr None
      end
  end.
Proof.
  unfold shape_element, shape_element_with.
  destruct (scan_tags PROBLEMCHARS_search e) as [exn|tags]; simpl; [done|].
  destruct (scan_nd e) as [exn|[way_nodes nd_pos]]; simpl; [done|].
  repeat case_decide; try done.
Qed.

Lemma raised_inl {A} (exn : Exception) : raised (inl exn : raises A).
Proof. destruct exn as [key]. by exists key. Qed.

Lemma scan_tags_raised (e : Element) :
  raised (scan_tags PROBLEMCHARS_search e) -> raised (shape_element e).
Proof. intros [key H]. rewrite shape_element_unfold, H. apply raised_inl. Qed.

Lemma scan_nd_raised (e : Element) :
  raised (scan_nd e) -> raised (shape_element e).
Proof.
  intros [key H]. rewrite shape_element_unfold, H.
  destruct (scan_tags _ e); apply raised_inl.
Qed.

(** ** Failures of the shaper *)

Lemma claimed_node_fields (k : str) :
  k ∈ lit <$> ["id"; "user"; "uid"; "version"; "lat"; "lon"; "timestamp";
               "changeset"]%string ->
  k ∈ NODE_FIELDS.
Proof.
  intros H%list_elem_of_In. apply list_elem_of_In.
  vm_compute in H |- *. tauto.
Qed.

Lemma claimed_way_fields (k : str) :
  k ∈ lit <$> ["id"; "user"; "uid"; "version"; "timestamp";
               "changeset"]%string ->
  k ∈ WAY_FIELDS.
Proof.
  intros H%list_elem_of_In. apply list_elem_of_In.
  vm_compute in H |- *. tauto.
Qed.

Lemma copy_raised (e : Element) (fields : list str) (k : str) :
  k ∈ fields -> attrib e !! k = None ->
  raised (for_each (attr_body e) ∅ fields).
Proof.
  intros Hin Hk.
  apply (for_each_raised _ (fun k => is_Some (attrib e !! k)) fields k);
    [intros st x; apply attr_body_returns|done|].
  rewrite Hk. by intros [? ?].
Qed.

(** C8: a node without one of id, user, uid, version, lat, lon, timestamp,
    changeset, and a way without one of id, user, uid, version, timestamp,
    changeset, is not shaped: [shape_element] raises a [KeyError] and so
    returns no record at all for the element. *)
Theorem missing_required_attribute_raises (e : Element) (k : str) :
  (tag e = lit "node" /\
   k ∈ lit <$> ["id"; "user"; "uid"; "version"; "lat"; "lon"; "timestamp";
                "changeset"]%string) \/
  (tag e = lit "way" /\
   k ∈ lit <$> ["id"; "user"; "uid"; "version"; "timestamp";
                "changeset"]%string) ->
  attrib e !! k = None ->
  (exists key, shape_element e = inl (KeyError key)) /\
  (forall r, shape_element e <> inr r).
Proof.
  intros Hkind Hk.
  assert (H : raised (shape_element e)).
  { rewrite shape_element_unfold.
    destruct (scan_tags _ e) as [exn|tags]; [apply raised_inl|].
    destruct (scan_nd e) as [exn|[way_nodes nd_pos]]; [apply raised_inl|].
    destruct Hkind as [[Htag Hin]|[Htag Hin]].
    - rewrite decide_True by done.
      destruct (copy_raised e NODE_FIELDS k) as [key ->];
        [by apply claimed_node_fields|done|by eexists].
    - rewrite decide_False by (rewrite Htag; done).
      rewrite decide_True by done.
      destruct (copy_raised e WAY_FIELDS k) as [key ->];
        [by apply claimed_way_fields|done|by eexists]. }
  split; [done|]. destruct H as [key ->]. done.
Qed.

Example node_without_uid_raises :
  shape_element node_without_uid = inl (KeyError (lit "uid")).
Proof. vm_compute. reflexivity. Qed.

Lemma missing_required_attribute_raises_witness :
  exists key, shape_element node_without_uid = inl (KeyError key).
Proof.
  apply (missing_required_attribute_raises node_without_uid (lit "uid")).
  - left. split; [reflexivity|]. vm_compute. do 2 right. left.
  - vm_compute. reflexivity.
Defined.

Lemma unreadable_tag_raises (e t : Element) :
  t ∈ iter (lit "tag") e -> ~ tag_readable e t -> raised (shape_element e).
Proof.
  intros Hin Hno. apply scan_tags_raised.
  apply (for_each_raised _ (tag_readable e) _ t); [|done|done].
  intros st x. apply tag_body_returns.
Qed.

Lemma unreadable_nd_raises (e t : Element) :
  t ∈ iter (lit "nd") e -> ~ nd_readable e t -> raised (shape_element e).
Proof.
  intros Hin Hno. apply scan_nd_raised.
  apply (for_each_raised _ (nd_readable e) _ t); [|done|done].
  intros st x. apply nd_body_returns.
Qed.

Example node_with_valueless_tag_shaped :
  shape_element node_with_valueless_tag =
  inr (Some (ShapedNode (attrs fast_food_attrs) [])).
Proof. vm_compute. reflexivity. Qed.

(** C2, as stated, fails: a node whose only tag has the key [Name] and no
    value is shaped, the tag being skipped before its value is read. *)
Lemma valueless_rejected_tag_not_fatal :
  ~ (forall e t : Element,
       tag e = lit "node" \/ tag e = lit "way" ->
       t ∈ children e ->
       (tag t = lit "tag" /\
        (attrib t !! lit "k" = None \/ attrib t !! lit "v" = None)) \/
       (tag t = lit "nd" /\ attrib t !! lit "ref" = None) ->
       exists key, shape_element e = inl (KeyError key)).
Proof.
  intros H.
  destruct (H node_with_valueless_tag valueless_tag) as [key Hkey].
  - by left.
  - by left.
  - left. split; [done|]. right. reflexivity.
  - rewrite node_with_valueless_tag_shaped in Hkey. discriminate Hkey.
Qed.

(** C2, amended: [shape_element] raises a [KeyError], and returns nothing
    for the element, when a tag sub-element has no [k], when a tag
    sub-element whose key the classifier accepts has no [v], and when an
    [nd] sub-element has no [ref].  A tag without [v] whose key the
    classifier rejects is skipped without an error. *)
Theorem unreadable_child_raises (e t : Element) :
  tag e = lit "node" \/ tag e = lit "way" ->
  ((t ∈ iter (lit "tag") e /\
    (attrib t !! lit "k" = None \/
     exists k, attrib t !! lit "k" = Some k /\ accepted k = true /\
               attrib t !! lit "v" = None)) \/
   (t ∈ iter (lit "nd") e /\ attrib t !! lit "ref" = None) ->
   exists key, shape_element e = inl (KeyError key)) /\
  (forall k tags, attrib t !! lit "k" = Some k -> accepted k = false ->
     attrib t !! lit "v" = None ->
     tag_body PROBLEMCHARS_search e tags t = inr tags).
Proof.
  intros _. split.
  - intros [[Hin Hbad]|[Hin Hbad]].
    + apply (unreadable_tag_raises e t Hin). intros (k & Hk & Hv).
      destruct Hbad as [Hnone|(k' & Hk' & Hacc & Hnov)]; [congruence|].
      assert (k' = k) as -> by congruence.
      destruct (Hv Hacc) as [_ [v Hsome]]. congruence.
    + apply (unreadable_nd_raises e t Hin). intros [_ [r Hr]]. congruence.
  - intros k tags Hk Hacc Hv. by rewrite tag_body_unfold, Hk, Hacc.
Qed.

Lemma unreadable_child_raises_witness :
  exists key, shape_element way_with_valueless_tag = inl (KeyError key).
Proof.
  apply (unreadable_child_raises way_with_valueless_tag
           (elem "tag" [("k", "highway")] [])).
  - right. reflexivity.
  - left. split.
    + vm_compute. left.
    + right. exists (lit "highway"). split_and!; vm_compute; reflexivity.
Defined.

Example relation_with_keyless_tag_raises :
  shape_element relation_with_keyless_tag = inl (KeyError (lit "k")).
Proof. vm_compute. reflexivity. Qed.

(** C3, as stated, fails: a relation whose tag has no [k] raises. *)
Lemma other_kind_may_raise :
  ~ (forall e : Element,
       tag e <> lit "node" -> tag e <> lit "way" -> shape_element e = inr None).
Proof.
  intros H.
  assert (Hnone : shape_element relation_with_keyless_tag = inr None).
  { apply H; compute_done. }
  rewrite relation_with_keyless_tag_raises in Hnone. discriminate Hnone.
Qed.

(** C3, amended: for an element that is neither a node nor a way,
    [shape_element] returns [None] exactly when both scans find what they
    read (every tag sub-element has [k] and, when the classifier accepts
    the key, has [v] and the element has [id]; every [nd] sub-element has
    [ref] and the element has [id]); otherwise it raises a [KeyError].  It
    never returns a record for such an element. *)
Theorem other_kind_unsupported (e : Element) :
  tag e <> lit "node" -> tag e <> lit "way" ->
  (shape_element e = inr None <->
   Forall (tag_readable e) (iter (lit "tag") e) /\
   Forall (nd_readable e) (iter (lit "nd") e)) /\
  (shape_element e = inr None \/
   exists key, shape_element e = inl (KeyError key)).
Proof.
  intros Hnode Hway.
  rewrite <- scan_tags_returns, <- scan_nd_returns, shape_element_unfold.
  destruct (scan_tags _ e) as [[key]|tags].
  - split; [|right; by eexists]. split; [done|]. by intros [[? ?] _].
  - destruct (scan_nd e) as [[key]|[way_nodes nd_pos]].
    + split; [|right; by eexists]. split; [done|]. by intros [_ [? ?]].
    + rewrite !decide_False by done. split; [|by left].
      split; [|done]. intros _. split; by eexists.
Qed.

Lemma other_kind_unsupported_witness :
  shape_element plain_relation = inr None.
Proof.
  apply (other_kind_unsupported plain_relation); [compute_done..|].
  split.
  - change (iter (lit "tag") plain_relation)
      with [elem "tag" [("k", "type"); ("v", "multipolygon")] []].
    constructor; [|constructor].
    exists (lit "type"). split; [reflexivity|].
    intros _. split; eexists; reflexivity.
  - change (iter (lit "nd") plain_relation) with (@nil Element). constructor.
Defined.

(** C10: the scan for [nd] sub-elements runs for every element before its
    kind is looked at.  An [nd] sub-element without [ref] makes
    [shape_element] raise, for a node as for any element; when a node is
    shaped the reference loop has run over all its [nd] sub-elements, and
    the records it built are not part of the result. *)
Theorem nd_scan_runs_for_nodes (e : Element) :
  tag e = lit "node" ->
  (forall t, t ∈ iter (lit "nd") e -> attrib t !! lit "ref" = None ->
     exists key, shape_element e = inl (KeyError key)) /\
  (forall r, shape_element e = inr r ->
     exists node node_tags way_nodes nd_pos,
       r = Some (ShapedNode node node_tags) /\
       scan_nd e = inr (way_nodes, nd_pos) /\
       length way_nodes = length (iter (lit "nd") e) /\
       shaped_way_nodes (ShapedNode node node_tags) = []).
Proof.
  intros Htag. split.
  - intros t Hin Href. apply (unreadable_nd_raises e t Hin).
    intros [_ [r Hr]]. congruence.
  - intros r. rewrite shape_element_unfold.
    destruct (scan_tags _ e) as [exn|tags]; [done|].
    destruct (scan_nd e) as [exn|[way_nodes nd_pos]] eqn:Hnd; [done|].
    rewrite decide_True by done.
    destruct (for_each (attr_body e) ∅ NODE_FIELDS) as [exn|node]; [done|].
    intros [= <-]. exists node, tags, way_nodes, nd_pos.
    split_and!; try done.
    apply nd_loop_inv in Hnd as (new & -> & Hrefs & _).
    simpl. symmetry. by apply Forall2_length in Hrefs.
Qed.

Lemma nd_scan_runs_for_nodes_witness :
  (exists key, shape_element node_with_bare_nd = inl (KeyError key)) /\
  (exists node node_tags, shape_element node_with_nd =
                          inr (Some (ShapedNode node node_tags))).
Proof.
  split.
  - apply (proj1 (nd_scan_runs_for_nodes node_with_bare_nd eq_refl)
                  (elem "nd" [] [])).
    + vm_compute. left.
    + reflexivity.
  - destruct (nd_scan_runs_for_nodes node_with_nd eq_refl) as [_ H].
    destruct (H (Some (ShapedNode (attrs fast_food_attrs) [])))
      as (node & node_tags & way_nodes & nd_pos & Hr & _).
    + vm_compute. reflexivity.
    + exists node, node_tags. rewrite <- Hr. vm_compute. reflexivity.
Defined.

(** ** Records of a shaped element *)

Lemma copy_reads (e : Element) (fields : list str) (k : str)
    (attribs : gmap str str) :
  for_each (attr_body e) ∅ fields = inr attribs -> k ∈ fields ->
  is_Some (attrib e !! k).
Proof.
  intros Hcopy Hin.
  assert (Hret : returns (for_each (attr_body e) ∅ fields)) by by eexists.
  apply copy_returns in Hret. rewrite Forall_forall in Hret. by apply Hret.
Qed.

Lemma id_in_NODE_FIELDS : lit "id" ∈ NODE_FIELDS.
Proof. vm_compute. left. Qed.

Lemma id_in_WAY_FIELDS : lit "id" ∈ WAY_FIELDS.
Proof. vm_compute. left. Qed.

Lemma tag_ids (e : Element) (id : str) (tags : list TagRecord) :
  attrib e !! lit "id" = Some id ->
  scan_tags PROBLEMCHARS_search e = inr tags ->
  Forall (fun t => tag_id t = id) tags.
Proof.
  intros Hid (new & -> & Hnew)%tag_loop_inv. simpl.
  eapply Forall_impl; [exact Hnew|]. simpl. intros r Hr. congruence.
Qed.

Lemma way_node_ids (e : Element) (id : str) (way_nodes : list WayNodeRecord)
    (nd_pos : Z) :
  attrib e !! lit "id" = Some id ->
  scan_nd e = inr (way_nodes, nd_pos) ->
  Forall (fun n => nd_id n = id) way_nodes.
Proof.
  intros Hid (new & -> & _ & _ & Hnew)%nd_loop_inv. simpl.
  eapply Forall_impl; [exact Hnew|]. simpl. intros r Hr. congruence.
Qed.

(** C9: when a node or a way is shaped, every tag record and every
    way-node record of the result has the value of the element's own [id]
    attribute as its id, unchanged. *)
Theorem records_carry_element_id (e : Element) (r : Shaped) :
  shape_element e = inr (Some r) ->
  exists id, attrib e !! lit "id" = Some id /\
    Forall (fun t => tag_id t = id) (shaped_tags r) /\
    Forall (fun n => nd_id n = id) (shaped_way_nodes r).
Proof.
  rewrite shape_element_unfold.
  destruct (scan_tags _ e) as [exn|tags] eqn:Htags; [done|].
  destruct (scan_nd e) as [exn|[way_nodes nd_pos]] eqn:Hnd; [done|].
  repeat case_decide; [| |done].
  - destruct (for_each (attr_body e) ∅ NODE_FIELDS) as [exn|node] eqn:Hcopy;
      [done|].
    destruct (copy_reads _ _ _ _ Hcopy id_in_NODE_FIELDS) as [id Hid].
    intros [= <-]. exists id. split_and!; [done| |constructor].
    by apply (tag_ids e).
  - destruct (for_each (attr_body e) ∅ WAY_FIELDS) as [exn|way] eqn:Hcopy;
      [done|].
    destruct (copy_reads _ _ _ _ Hcopy id_in_WAY_FIELDS) as [id Hid].
    intros [= <-]. exists id. split_and!; [done| |].
    + by apply (tag_ids e).
    + by apply (way_node_ids e id way_nodes nd_pos).
Qed.

Example ring_way_shaped :
  shape_element ring_way =
  inr (Some (ShapedWay (attrib ring_way)
    (imap (fun n r => mkWayNode (lit "209809850") r (Z.of_nat n)) ring_refs)
    [mkTag (lit "209809850") (lit "housenumber") (lit "1412") (lit "addr");
     mkTag (lit "209809850") (lit "street") (lit "West Lexington St.")
           (lit "addr");
     mkTag (lit "209809850") (lit "street:name") (lit "Lexington")
           (lit "addr");
     mkTag (lit "209809850") (lit "building") (lit "yes") []])).
Proof. vm_compute. reflexivity. Qed.

Lemma records_carry_element_id_witness :
  exists id, attrib ring_way !! lit "id" = Some id /\
    Forall (fun t => tag_id t = id)
      [mkTag (lit "209809850") (lit "housenumber") (lit "1412") (lit "addr");
       mkTag (lit "209809850") (lit "street") (lit "West Lexington St.")
             (lit "addr");
       mkTag (lit "209809850") (lit "street:name") (lit "Lexington")
             (lit "addr");
       mkTag (lit "209809850") (lit "building") (lit "yes") []] /\
    Forall (fun n => nd_id n = id)
      (imap (fun n r => mkWayNode (lit "209809850") r (Z.of_nat n)) ring_refs).
Proof.
  apply (records_carry_element_id ring_way
           (ShapedWay (attrib ring_way)
              (imap (fun n r => mkWayNode (lit "209809850") r (Z.of_nat n))
                    ring_refs) _)).
  vm_compute. reflexivity.
Defined.

Lemma way_returns (e : Element) :
  tag e = lit "way" ->
  Forall (fun k => is_Some (attrib e !! k)) WAY_FIELDS ->
  Forall (tag_readable e) (iter (lit "tag") e) ->
  Forall (fun t => is_Some (attrib t !! lit "ref")) (iter (lit "nd") e) ->
  returns (shape_element e).
Proof.
  intros Htag Hfields Htags Hrefs. rewrite shape_element_unfold.
  apply scan_tags_returns in Htags as [tags ->].
  assert (Hid : is_Some (attrib e !! lit "id")).
  { rewrite Forall_forall in Hfields. apply Hfields, id_in_WAY_FIELDS. }
  assert (Hnd : returns (scan_nd e)).
  { apply scan_nd_returns. eapply Forall_impl; [exact Hrefs|].
    intros t Ht. by split. }
  destruct Hnd as [[way_nodes nd_pos] ->].
  rewrite decide_False by (rewrite Htag; done). rewrite decide_True by done.
  apply copy_returns in Hfields as [way ->]. by eexists.
Qed.

(** C4: for a way whose [nd] sub-elements carry, in document order, the
    refs [r0 .. rN-1], a shaped result holds exactly N way-node records,
    with positions 0, 1, .., N-1 in that order and node ids r0 .. rN-1,
    equal refs or not; and the way is shaped as soon as its own attributes
    and its tags can be read. *)
Theorem way_nodes_numbered (e : Element) (refs : list str) :
  tag e = lit "way" ->
  (fun t => attrib t !! lit "ref") <$> iter (lit "nd") e = Some <$> refs ->
  (forall r, shape_element e = inr r ->
     exists way way_nodes way_tags,
       r = Some (ShapedWay way way_nodes way_tags) /\
       length way_nodes = length refs /\
       nd_position <$> way_nodes = Z.of_nat <$> seq 0 (length refs) /\
       nd_node_id <$> way_nodes = refs) /\
  (Forall (fun k => is_Some (attrib e !! k)) WAY_FIELDS ->
   Forall (tag_readable e) (iter (lit "tag") e) ->
   exists r, shape_element e = inr (Some r)).
Proof.
  intros Htag Hrefs. split.
  - intros r. rewrite shape_element_unfold.
    destruct (scan_tags _ e) as [exn|tags]; [done|].
    destruct (scan_nd e) as [exn|[way_nodes nd_pos]] eqn:Hnd; [done|].
    rewrite decide_False by (rewrite Htag; done). rewrite decide_True by done.
    destruct (for_each (attr_body e) ∅ WAY_FIELDS) as [exn|way]; [done|].
    intros [= <-]. exists way, way_nodes, tags.
    apply nd_loop_inv in Hnd as (new & -> & Hnew & Hpos & _). simpl.
    pose proof (refs_functional _ _ _ Hnew Hrefs) as Hids.
    assert (Hlen : length (iter (lit "nd") e) = length refs).
    { apply (f_equal length) in Hrefs. by rewrite !length_fmap in Hrefs. }
    split_and!; [done| |by rewrite Hpos, Hlen|done].
    by rewrite <- Hids, length_fmap.
  - intros Hfields Htags.
    destruct (way_returns e Htag Hfields Htags (refs_readable _ _ Hrefs))
      as [r Hr].
    destruct r as [r|]; [by exists r|]. exfalso. revert Hr.
    rewrite shape_element_unfold.
    destruct (scan_tags _ e) as [exn|tags]; [done|].
    destruct (scan_nd e) as [exn|[way_nodes nd_pos]]; [done|].
    rewrite decide_False by (rewrite Htag; done). rewrite decide_True by done.
    by destruct (for_each (attr_body e) ∅ WAY_FIELDS).
Qed.

Lemma way_nodes_numbered_witness :
  exists way way_nodes way_tags,
    shape_element ring_way = inr (Some (ShapedWay way way_nodes way_tags)) /\
    length way_nodes = 7%nat /\
    nd_position <$> way_nodes = [0; 1; 2; 3; 4; 5; 6]%Z /\
    nd_node_id <$> way_nodes = ring_refs.
Proof.
  destruct (way_nodes_numbered ring_way ring_refs) as [H _].
  - reflexivity.
  - vm_compute. reflexivity.
  - destruct (H _ ring_way_shaped) as (way & way_nodes & way_tags & Hr & Hw).
    exists way, way_nodes, way_tags. split; [|exact Hw].
    rewrite <- Hr. exact ring_way_shaped.
Defined.

(** ** The tag classifier *)

Lemma tag_body_accepted (e t : Element) (tags : list TagRecord) (k id v : str) :
  attrib t !! lit "k" = Some k -> accepted k = true ->
  attrib e !! lit "id" = Some id -> attrib t !! lit "v" = Some v ->
  tag_body PROBLEMCHARS_search e tags t =
  inr (tags ++ [mkTag id (type_and_key k).2 v (type_and_key k).1]).
Proof. intros Hk Hacc Hid Hv. by rewrite tag_body_unfold, Hk, Hacc, Hid, Hv. Qed.

Lemma tag_body_rejected (e t : Element) (tags : list TagRecord) (k : str) :
  attrib t !! lit "k" = Some k -> accepted k = false ->
  tag_body PROBLEMCHARS_search e tags t = inr tags.
Proof. intros Hk Hacc. by rewrite tag_body_unfold, Hk, Hacc. Qed.

Example fast_food_node_shaped :
  shape_element fast_food_node =
  inr (Some (ShapedNode (attrs fast_food_attrs)
    [mkTag (lit "757860928") (lit "amenity") (lit "fast_food") [];
     mkTag (lit "757860928") (lit "cuisine") (lit "sausage") [];
     mkTag (lit "757860928") (lit "name") (lit "Shelly's Tasty Freeze") []])).
Proof. vm_compute. reflexivity. Qed.

(** C1: what the code does for an accepted key without a colon.  The key
    of the record is the raw key unchanged, but its type is the empty
    string [tag_type] is initialised with, and not the string [regular]
    that the documentation of the module and the unused keyword argument
    [default_tag_type] name. *)
Theorem colonless_key_gets_empty_type (e t : Element) (tags : list TagRecord)
    (k id v : str) :
  attrib t !! lit "k" = Some k -> accepted k = true -> colon ∉ k ->
  attrib e !! lit "id" = Some id -> attrib t !! lit "v" = Some v ->
  tag_body PROBLEMCHARS_search e tags t = inr (tags ++ [mkTag id k v []]) /\
  tag_type (mkTag id k v []) <> lit "regular".
Proof.
  intros Hk Hacc Hcolon Hid Hv.
  rewrite (tag_body_accepted e t tags k id v) by done.
  by rewrite type_and_key_plain.
Qed.

Lemma colonless_key_gets_empty_type_witness :
  tag_body PROBLEMCHARS_search fast_food_node []
    (elem "tag" [("k", "amenity"); ("v", "fast_food")] []) =
  inr [mkTag (lit "757860928") (lit "amenity") (lit "fast_food") []].
Proof.
  apply (colonless_key_gets_empty_type fast_food_node
           (elem "tag" [("k", "amenity"); ("v", "fast_food")] []) []
           (lit "amenity") (lit "757860928") (lit "fast_food")).
  - vm_compute. reflexivity.
  - vm_compute. reflexivity.
  - compute_done.
  - vm_compute. reflexivity.
  - vm_compute. reflexivity.
Defined.

(** C5: a key that holds a problem character anywhere is rejected; its
    tag adds no record and raises nothing, so the scan goes on as if the
    tag were not there. *)
Theorem problem_key_is_skipped (e t : Element) (k : str) (c : N) :
  attrib t !! lit "k" = Some k -> c ∈ k -> c ∈ problem_characters ->
  accepted k = false /\
  (forall tags, tag_body PROBLEMCHARS_search e tags t = inr tags) /\
  (forall tags before after,
     for_each (tag_body PROBLEMCHARS_search e) tags (before ++ t :: after) =
     for_each (tag_body PROBLEMCHARS_search e) tags (before ++ after)).
Proof.
  intros Hk Hin Hc.
  assert (Hacc : accepted k = false).
  { unfold accepted.
    assert (PROBLEMCHARS_search k = true) as ->; [|done].
    apply PROBLEMCHARS_search_true. exists c. split; [done|].
    by apply problem_characters_class. }
  assert (Hskip : forall tags, tag_body PROBLEMCHARS_search e tags t = inr tags).
  { intros tags. by apply (tag_body_rejected e t tags k). }
  split_and!; [done|done|].
  intros tags before after. rewrite !for_each_app.
  destruct (for_each _ tags before) as [exn|tags']; [done|].
  simpl. by rewrite Hskip.
Qed.

Lemma problem_key_is_skipped_witness :
  accepted (lit "addr:street name") = false.
Proof.
  apply (problem_key_is_skipped ring_way
           (elem "tag" [("k", "addr:street name"); ("v", "Lexington")] [])
           (lit "addr:street name") 32).
  - vm_compute. reflexivity.
  - compute_done.
  - compute_done.
Defined.

(** *** Which keys are accepted *)

Lemma LOWER_class_spec (c : N) :
  LOWER_class c = true <-> ascii_lower c \/ decimal_digit c = true.
Proof.
  unfold LOWER_class, lower_letter, ascii_lower.
  rewrite orb_true_iff, andb_true_iff, N.leb_le, N.leb_le. tauto.
Qed.

(** Below 128 the decimal digits are the ten ASCII digits. *)
Lemma decimal_digit_ascii (c : N) :
  c < 128 -> decimal_digit c = true <-> ascii_digit c.
Proof.
  intros Hc. unfold decimal_digit, ascii_digit, Nd_zero. cbn [existsb].
  rewrite !orb_true_iff, !andb_true_iff, !N.leb_le, !N.ltb_lt. lia.
Qed.

Lemma newline_is_problem : newline ∈ problem_characters.
Proof. compute_done. Qed.

Lemma accepted_spec (k : str) :
  Forall (fun c => c ∉ problem_characters) k ->
  accepted k = true <->
  segments_in (fun c => ascii_lower c \/ decimal_digit c = true) (re_split k).
Proof.
  intros Hfree. unfold accepted, segments_in.
  assert (Hnl : newline ∉ k).
  { intros Hin. rewrite Forall_forall in Hfree.
    apply (Hfree _ Hin), newline_is_problem. }
  apply PROBLEMCHARS_search_false in Hfree as ->. simpl.
  rewrite key_ok_spec by done. apply Forall_proper; [|done].
  intros seg. apply and_iff_compat_l, Forall_proper; [|done].
  intros c. apply LOWER_class_spec.
Qed.

Example arabic_digit_key_accepted : accepted [0x663] = true.
Proof. reflexivity. Qed.

(** C6, as stated, fails: the key made of the Arabic-Indic digit three
    (U+0663) has no problem character and is accepted, since [\d] matches
    the decimal digits of every script, yet it is no segment of
    [[0-9a-z]+]. *)
Lemma non_ascii_digit_key_accepted :
  ~ (forall k : str,
       Forall (fun c => c ∉ problem_characters) k ->
       accepted k = true <->
       exists segs, split_on_colons k segs /\
         segments_in (fun c => ascii_lower c \/ ascii_digit c) segs).
Proof.
  intros H. destruct (H [0x663]) as [Hsegs _].
  - constructor; [compute_done|constructor].
  - destruct (Hsegs arabic_digit_key_accepted) as (segs & Hsplit & Hin).
    apply split_on_colons_unique in Hsplit as ->.
    apply Forall_cons in Hin as [[_ Hc] _].
    apply Forall_cons in Hc as [Hc _].
    unfold ascii_lower, ascii_digit in Hc. lia.
Qed.

(** C6, amended: a key without a problem character is accepted exactly
    when every segment of the key split on every colon is one or more
    characters, each a lowercase ASCII letter or a decimal digit, where the
    decimal digits are those of every script (Unicode category Nd) and,
    among the ASCII characters, only 0 to 9; an underscore is neither.  A
    key with an uppercase letter, such as [Name], is rejected and its tag
    skipped. *)
Theorem accepted_iff_segments (k : str) :
  Forall (fun c => c ∉ problem_characters) k ->
  (accepted k = true <->
   exists segs, split_on_colons k segs /\
     segments_in (fun c => ascii_lower c \/ decimal_digit c = true) segs) /\
  (forall c, c < 128 -> decimal_digit c = true <-> ascii_digit c) /\
  LOWER_class 0x5f = false /\
  accepted (lit "Name") = false /\
  (forall e t tags, attrib t !! lit "k" = Some (lit "Name") ->
     tag_body PROBLEMCHARS_search e tags t = inr tags).
Proof.
  intros Hfree. split_and!; [|apply decimal_digit_ascii|done|done|].
  - rewrite (accepted_spec k Hfree). split.
    + intros Hsegs. exists (re_split k). split; [|done].
      apply re_split_segments.
    + intros (segs & Hsplit & Hsegs).
      by apply split_on_colons_unique in Hsplit as ->.
  - intros e t tags Hk. by apply (tag_body_rejected e t tags (lit "Name")).
Qed.

Lemma accepted_iff_segments_witness :
  accepted (lit "addr:housenumber") = true /\ accepted (lit "addr:_x") = false.
Proof.
  split.
  - apply (accepted_iff_segments (lit "addr:housenumber")).
    + compute_done.
    + exists [lit "addr"; lit "housenumber"]. split.
      * split_and!; [done| |reflexivity].
        repeat constructor; compute_done.
      * repeat constructor; try done; left; unfold ascii_lower; lia.
  - reflexivity.
Defined.

(** ** Further properties of [shape_element] *)

(** A loop that raises does so at a first item, after the items before it
    went through. *)
Lemma for_each_first_raise {A T} (body : T -> A -> raises T) (l : list A)
    (st : T) (exn : Exception) :
  for_each body st l = inl exn ->
  exists before x after st',
    l = before ++ x :: after /\
    for_each body st before = inr st' /\ body st' x = inl exn.
Proof.
  revert st. induction l as [|x l IH]; intros st; simpl; [done|].
  destruct (body st x) as [exn'|st1] eqn:Hb; simpl.
  - intros [= ->]. by exists [], x, l, st.
  - intros (before & y & after & st' & -> & Hbefore & Hy)%IH.
    exists (x :: before), y, after, st'. split_and!; [done| |done].
    simpl. by rewrite Hb.
Qed.

Lemma attr_body_unfold (e : Element) (attribs : gmap str str) (key : str) :
  attr_body e attribs key =
  match attrib e !! key with
  | Some v => inr (<[key := v]> attribs)
  | None => inl (KeyError key)
  end.
Proof. unfold attr_body, getitem. by destruct (attrib e !! key). Qed.

Lemma copy_lookup (e : Element) (fields : list str) (acc attribs : gmap str str) :
  for_each (attr_body e) acc fields = inr attribs ->
  forall k, attribs !! k =
            if decide (k ∈ fields) then attrib e !! k else acc !! k.
Proof.
  revert acc. induction fields as [|f fields IH]; intros acc Hcopy k.
  - injection Hcopy as <-.
    by rewrite decide_False by (by intros ?%elem_of_nil).
  - change (for_each (attr_body e) acc (f :: fields))
      with (st' ← attr_body e acc f; for_each (attr_body e) st' fields)
      in Hcopy.
    rewrite attr_body_unfold in Hcopy.
    destruct (attrib e !! f) as [v|] eqn:Hf; [|discriminate Hcopy].
    simpl in Hcopy. rewrite (IH _ Hcopy k).
    destruct (decide (k ∈ fields)) as [Hin|Hnin].
    + by rewrite decide_True by (by right).
    + destruct (decide (k = f)) as [->|Hne].
      * rewrite decide_True by by left. by rewrite lookup_insert_eq.
      * rewrite decide_False by (by intros [?|?]%elem_of_cons).
        by rewrite lookup_insert_ne.
Qed.

(** X1: the dictionary of a shaped node or way holds exactly the fields of
    its kind, each with the value of the element's attribute of that name;
    every other attribute of the element is left out. *)
Theorem shaped_attribs_copied (e : Element) (r : Shaped) :
  shape_element e = inr (Some r) ->
  (forall k, k ∈ shaped_fields r ->
     is_Some (attrib e !! k) /\ shaped_attribs r !! k = attrib e !! k) /\
  (forall k, k ∉ shaped_fields r -> shaped_attribs r !! k = None).
Proof.
  rewrite shape_element_unfold.
  destruct (scan_tags _ e) as [exn|tags]; [done|].
  destruct (scan_nd e) as [exn|[way_nodes nd_pos]]; [done|].
  repeat case_decide; [| |done].
  - destruct (for_each (attr_body e) ∅ NODE_FIELDS) as [exn|node] eqn:Hcopy;
      [done|].
    intros [= <-]. simpl. split; intros k Hk.
    + split; [by apply (copy_reads _ _ _ _ Hcopy)|].
      by rewrite (copy_lookup _ _ _ _ Hcopy k), decide_True.
    + by rewrite (copy_lookup _ _ _ _ Hcopy k), decide_False.
  - destruct (for_each (attr_body e) ∅ WAY_FIELDS) as [exn|way] eqn:Hcopy;
      [done|].
    intros [= <-]. simpl. split; intros k Hk.
    + split; [by apply (copy_reads _ _ _ _ Hcopy)|].
      by rewrite (copy_lookup _ _ _ _ Hcopy k), decide_True.
    + by rewrite (copy_lookup _ _ _ _ Hcopy k), decide_False.
Qed.

Lemma shaped_attribs_copied_witness :
  is_Some (attrib ring_way !! lit "uid").
Proof.
  destruct (shaped_attribs_copied ring_way _ ring_way_shaped) as [Hin _].
  apply (Hin (lit "uid")). compute_done.
Defined.

Lemma shaped_has_id (e : Element) (r : Shaped) :
  shape_element e = inr (Some r) -> is_Some (attrib e !! lit "id").
Proof.
  rewrite shape_element_unfold.
  destruct (scan_tags _ e) as [exn|tags]; [done|].
  destruct (scan_nd e) as [exn|[way_nodes nd_pos]]; [done|].
  repeat case_decide; [| |done].
  - destruct (for_each (attr_body e) ∅ NODE_FIELDS) as [exn|node] eqn:Hcopy;
      [done|].
    intros _. apply (copy_reads _ _ _ _ Hcopy id_in_NODE_FIELDS).
  - destruct (for_each (attr_body e) ∅ WAY_FIELDS) as [exn|way] eqn:Hcopy;
      [done|].
    intros _. apply (copy_reads _ _ _ _ Hcopy id_in_WAY_FIELDS).
Qed.

Lemma omap_length_le {A B} (f : A -> option B) (l : list A) :
  (length (omap f l) <= length l)%nat.
Proof.
  induction l as [|x l IH]; csimpl; [done|]. destruct (f x); csimpl; lia.
Qed.

Lemma tag_loop_records (e : Element) (id : str) (l : list Element)
    (acc tags : list TagRecord) :
  attrib e !! lit "id" = Some id ->
  for_each (tag_body PROBLEMCHARS_search e) acc l = inr tags ->
  tags = acc ++ omap (tag_record id) l.
Proof.
  intros Hid. revert acc. induction l as [|t l IH]; intros acc; simpl.
  - intros [= <-]. by rewrite app_nil_r.
  - rewrite tag_body_unfold. unfold tag_record at 1.
    destruct (attrib t !! lit "k") as [k|]; simpl; [|done].
    destruct (accepted k); [|apply IH]. rewrite Hid.
    destruct (attrib t !! lit "v") as [v|]; simpl; [|done].
    intros ->%IH. by rewrite <- app_assoc.
Qed.

(** X2: the tag records of a shaped node or way are, in document order,
    one record per tag sub-element whose key is accepted, and nothing for
    the others; each record has the id of the element, the type and key
    split from the tag's key, and the tag's value as it is, whatever
    characters it holds. *)
Theorem shaped_tags_in_document_order (e : Element) (r : Shaped) :
  shape_element e = inr (Some r) ->
  exists id, attrib e !! lit "id" = Some id /\
    shaped_tags r = omap (tag_record id) (iter (lit "tag") e) /\
    (length (shaped_tags r) <= length (iter (lit "tag") e))%nat.
Proof.
  intros Hr.
  destruct (shaped_has_id e r Hr) as [id Hid].
  exists id. split; [done|].
  assert (Htags : shaped_tags r = omap (tag_record id) (iter (lit "tag") e)).
  { revert Hr. rewrite shape_element_unfold.
    destruct (scan_tags _ e) as [exn|tags] eqn:Htags; [done|].
    apply (tag_loop_records e id) in Htags; [|done]. simpl in Htags.
    destruct (scan_nd e) as [exn|[way_nodes nd_pos]]; [done|].
    repeat case_decide; [| |done].
    - destruct (for_each (attr_body e) ∅ NODE_FIELDS); [done|].
      by intros [= <-].
    - destruct (for_each (attr_body e) ∅ WAY_FIELDS); [done|].
      by intros [= <-]. }
  split; [done|]. rewrite Htags. apply omap_length_le.
Qed.

Lemma shaped_tags_in_document_order_witness :
  omap (tag_record (lit "209809850")) (iter (lit "tag") ring_way) =
  [mkTag (lit "209809850") (lit "housenumber") (lit "1412") (lit "addr");
   mkTag (lit "209809850") (lit "street") (lit "West Lexington St.")
         (lit "addr");
   mkTag (lit "209809850") (lit "street:name") (lit "Lexington") (lit "addr");
   mkTag (lit "209809850") (lit "building") (lit "yes") []].
Proof.
  destruct (shaped_tags_in_document_order ring_way _ ring_way_shaped)
    as (id & Hid & Htags & _).
  injection Hid as <-. symmetry. exact Htags.
Defined.

(** *** Type and key determine the raw key *)

Lemma first_colon (k : str) :
  colon ∈ k -> exists pre post, k = pre ++ colon :: post /\ colon ∉ pre.
Proof.
  induction k as [|c k IH]; [by intros ?%elem_of_nil|].
  destruct (decide (c = colon)) as [->|Hc].
  - intros _. exists [], k. split; [done|]. by intros ?%elem_of_nil.
  - intros [?|Hin]%elem_of_cons; [done|].
    destruct (IH Hin) as (pre & post & -> & Hpre).
    exists (c :: pre), post. split; [done|].
    by intros [?|?]%elem_of_cons.
Qed.

Lemma LOWER_match_nil : LOWER_match [] = false.
Proof. reflexivity. Qed.

Lemma key_ok_first_segment (pre post : str) :
  colon ∉ pre -> key_ok (pre ++ colon :: post) = true -> pre <> [].
Proof.
  intros Hpre. unfold key_ok. rewrite re_split_cut by done. simpl.
  intros [Hm _]%andb_true_iff ->. by rewrite LOWER_match_nil in Hm.
Qed.

(** The type is empty exactly for a key without a colon, the type never
    holds a colon, and type and key give the raw key back. *)
Lemma type_and_key_inverse (k : str) :
  key_ok k = true ->
  (colon ∉ (type_and_key k).1) /\
  ((type_and_key k).1 = [] <-> colon ∉ k) /\
  k = (if decide ((type_and_key k).1 = []) then (type_and_key k).2
       else (type_and_key k).1 ++ colon :: (type_and_key k).2).
Proof.
  intros Hok. destruct (decide (colon ∈ k)) as [Hin|Hnin].
  - destruct (first_colon k Hin) as (pre & post & -> & Hpre).
    pose proof (key_ok_first_segment pre post Hpre Hok) as Hne.
    rewrite type_and_key_cut by done. cbn [fst snd].
    split_and!; [done| |by rewrite decide_False].
    split; [done|]. intros Hno. exfalso. apply Hno.
    apply elem_of_app. right. by left.
  - rewrite type_and_key_plain by done. cbn [fst snd].
    split_and!; [by intros ?%elem_of_nil|done|by rewrite decide_True].
Qed.

(** X3: for the keys the classifier accepts, the type and key of the
    record determine the raw key: the type has no colon and is empty
    exactly when the raw key has none, and two accepted keys with the same
    type and key are the same key. *)
Theorem accepted_keys_do_not_collide (k1 k2 : str) :
  accepted k1 = true -> accepted k2 = true ->
  type_and_key k1 = type_and_key k2 ->
  k1 = k2 /\ (colon ∉ (type_and_key k1).1) /\
  ((type_and_key k1).1 = [] <-> colon ∉ k1).
Proof.
  unfold accepted. intros [_ H1]%andb_true_iff [_ H2]%andb_true_iff Heq.
  destruct (type_and_key_inverse k1 H1) as (Hc1 & He1 & Hk1).
  destruct (type_and_key_inverse k2 H2) as (_ & _ & Hk2).
  split_and!; [|done|done]. rewrite Hk1, Hk2, Heq. done.
Qed.

Lemma accepted_keys_do_not_collide_witness :
  (type_and_key (lit "addr:street")).1 = [] <-> colon ∉ lit "addr:street".
Proof.
  apply (accepted_keys_do_not_collide (lit "addr:street") (lit "addr:street"));
    reflexivity.
Defined.

Example rejected_keys_collide :
  type_and_key (lit ":name") = type_and_key (lit "name") /\
  accepted (lit ":name") = false.
Proof. split; reflexivity. Qed.

(** *** When an element is shaped, and what a failure reports *)

Lemma shaped_scans (e : Element) (r : Shaped) :
  shape_element e = inr (Some r) ->
  scan_tags PROBLEMCHARS_search e = inr (shaped_tags r) /\
  returns (scan_nd e) /\
  returns (for_each (attr_body e) ∅ (shaped_fields r)) /\
  ((tag e = lit "node" /\ shaped_fields r = NODE_FIELDS) \/
   (tag e = lit "way" /\ shaped_fields r = WAY_FIELDS)).
Proof.
  rewrite shape_element_unfold.
  destruct (scan_tags _ e) as [exn|tags]; [done|].
  destruct (scan_nd e) as [exn|[way_nodes nd_pos]]; [done|].
  repeat case_decide; [| |done].
  - destruct (for_each (attr_body e) ∅ NODE_FIELDS) as [exn|node] eqn:Hcopy;
      [done|].
    intros [= <-]. cbn [shaped_fields shaped_tags]. rewrite Hcopy.
    split_and!; [done|by eexists|by eexists|by left].
  - destruct (for_each (attr_body e) ∅ WAY_FIELDS) as [exn|way] eqn:Hcopy;
      [done|].
    intros [= <-]. cbn [shaped_fields shaped_tags]. rewrite Hcopy.
    split_and!; [done|by eexists|by eexists|by right].
Qed.

Lemma returns_shaped (e : Element) (fields : list str) :
  (tag e = lit "node" /\ fields = NODE_FIELDS) \/
  (tag e = lit "way" /\ fields = WAY_FIELDS) ->
  returns (scan_tags PROBLEMCHARS_search e) -> returns (scan_nd e) ->
  returns (for_each (attr_body e) ∅ fields) ->
  exists r, shape_element e = inr (Some r).
Proof.
  intros Hkind [tags Htags] [[way_nodes nd_pos] Hnd] [attribs Hcopy].
  rewrite shape_element_unfold, Htags, Hnd.
  destruct Hkind as [[Htag ->]|[Htag ->]].
  - rewrite decide_True by done. rewrite Hcopy. by eexists.
  - rewrite decide_False by (rewrite Htag; done).
    rewrite decide_True by done. rewrite Hcopy. by eexists.
Qed.

(** X4: a node, and a way, is shaped exactly when the element has every
    field of its kind, every tag sub-element has [k] and, if the key is
    accepted, [v], and every [nd] sub-element has [ref]; in every other
    case [shape_element] raises. *)
Theorem shaped_exactly_when_readable (e : Element) (fields : list str) :
  (tag e = lit "node" /\ fields = NODE_FIELDS) \/
  (tag e = lit "way" /\ fields = WAY_FIELDS) ->
  ((exists r, shape_element e = inr (Some r)) <->
   Forall (fun k => is_Some (attrib e !! k)) fields /\
   Forall (fun t => exists k, attrib t !! lit "k" = Some k /\
                      (accepted k = true -> is_Some (attrib t !! lit "v")))
          (iter (lit "tag") e) /\
   Forall (fun t => is_Some (attrib t !! lit "ref")) (iter (lit "nd") e)) /\
  ((exists r, shape_element e = inr (Some r)) \/
   (exists key, shape_element e = inl (KeyError key))).
Proof.
  intros Hkind.
  assert (Hid_in : lit "id" ∈ fields).
  { destruct Hkind as [[_ ->]|[_ ->]];
      [apply id_in_NODE_FIELDS|apply id_in_WAY_FIELDS]. }
  split.
  - split.
    + intros [r Hr]. apply shaped_scans in Hr as (Htags & Hnd & Hcopy & Hr).
      assert (shaped_fields r = fields) as Hf.
      { destruct Hkind as [[Ht ->]|[Ht ->]], Hr as [[Ht' ?]|[Ht' ?]];
          try done; rewrite Ht in Ht'; discriminate Ht'. }
      rewrite Hf in Hcopy. apply copy_returns in Hcopy.
      assert (Htags' : returns (scan_tags PROBLEMCHARS_search e))
        by by eexists.
      apply scan_tags_returns in Htags'. apply scan_nd_returns in Hnd.
      split_and!; [done| |].
      * eapply Forall_impl; [exact Htags'|]. intros t (k & Hk & Hv).
        exists k. split; [done|]. intros Hacc. by apply Hv.
      * eapply Forall_impl; [exact Hnd|]. by intros t [_ ?].
    + intros (Hfields & Htags & Hnd).
      assert (Hid : is_Some (attrib e !! lit "id")).
      { rewrite Forall_forall in Hfields. by apply Hfields. }
      apply (returns_shaped e fields Hkind).
      * apply scan_tags_returns. eapply Forall_impl; [exact Htags|].
        intros t (k & Hk & Hv). exists k. split; [done|].
        intros Hacc. split; [done|by apply Hv].
      * apply scan_nd_returns. eapply Forall_impl; [exact Hnd|].
        intros t Ht. by split.
      * by apply copy_returns.
  - destruct (shape_element e) as [[key]|[r|]] eqn:Hr.
    + right. by eexists.
    + left. by eexists.
    + exfalso. revert Hr. rewrite shape_element_unfold.
      destruct (scan_tags _ e) as [exn|tags]; [done|].
      destruct (scan_nd e) as [exn|[way_nodes nd_pos]]; [done|].
      destruct Hkind as [[Htag _]|[Htag _]].
      * rewrite decide_True by done.
        by destruct (for_each (attr_body e) ∅ NODE_FIELDS).
      * rewrite decide_False by (rewrite Htag; done).
        rewrite decide_True by done.
        by destruct (for_each (attr_body e) ∅ WAY_FIELDS).
Qed.

Lemma shaped_exactly_when_readable_witness :
  Forall (fun t => is_Some (attrib t !! lit "ref")) (iter (lit "nd") ring_way).
Proof.
  destruct (shaped_exactly_when_readable ring_way WAY_FIELDS) as [[H _] _].
  - right. split; reflexivity.
  - apply H. eexists. exact ring_way_shaped.
Defined.

(** X5: the [KeyError] of [shape_element] names an attribute that is
    really missing: [k] or [v] on a tag sub-element (for [v], one whose key
    is accepted), [ref] on an [nd] sub-element, or, on the element itself,
    [id] or a field of its kind. *)
Theorem key_error_names_missing_attribute (e : Element) (key : str) :
  shape_element e = inl (KeyError key) ->
  (key = lit "k" /\
   exists t, t ∈ iter (lit "tag") e /\ attrib t !! lit "k" = None) \/
  (key = lit "v" /\
   exists t k, t ∈ iter (lit "tag") e /\ attrib t !! lit "k" = Some k /\
               accepted k = true /\ attrib t !! lit "v" = None) \/
  (key = lit "ref" /\
   exists t, t ∈ iter (lit "nd") e /\ attrib t !! lit "ref" = None) \/
  (attrib e !! key = None /\
   (key = lit "id" \/ (tag e = lit "node" /\ key ∈ NODE_FIELDS) \/
    (tag e = lit "way" /\ key ∈ WAY_FIELDS))).
Proof.
  rewrite shape_element_unfold.
  destruct (scan_tags _ e) as [exn|tags] eqn:Htags.
  { intros [= ->].
    apply for_each_first_raise in Htags
      as (before & t & after & st & Hl & _ & Ht).
    assert (Hin : t ∈ iter (lit "tag") e).
    { rewrite Hl. apply elem_of_app. right. by left. }
    rewrite tag_body_unfold in Ht.
    destruct (attrib t !! lit "k") as [k|] eqn:Hk.
    - destruct (accepted k) eqn:Hacc; [|done].
      destruct (attrib e !! lit "id") as [id|] eqn:Hid.
      + destruct (attrib t !! lit "v") as [v|] eqn:Hv; [done|].
        injection Ht as <-. right. left. split; [done|]. by exists t, k.
      + injection Ht as <-. do 3 right. split; [done|by left].
    - injection Ht as <-. left. split; [done|]. by exists t. }
  destruct (scan_nd e) as [exn|[way_nodes nd_pos]] eqn:Hnd.
  { intros [= ->].
    apply for_each_first_raise in Hnd
      as (before & t & after & [wn p] & Hl & _ & Ht).
    assert (Hin : t ∈ iter (lit "nd") e).
    { rewrite Hl. apply elem_of_app. right. by left. }
    rewrite nd_body_unfold in Ht.
    destruct (attrib e !! lit "id") as [id|] eqn:Hid.
    - destruct (attrib t !! lit "ref") as [ref|] eqn:Href; [done|].
      injection Ht as <-. do 2 right. left. split; [done|]. by exists t.
    - injection Ht as <-. do 3 right. split; [done|by left]. }
  assert (Hcopy : forall fields,
            for_each (attr_body e) ∅ fields = inl (KeyError key) ->
            attrib e !! key = None /\ key ∈ fields).
  { intros fields (before & f & after & st & Hl & _ & Hf)%for_each_first_raise.
    rewrite attr_body_unfold in Hf.
    destruct (attrib e !! f) eqn:Hnone; [done|]. injection Hf as <-.
    split; [done|]. rewrite Hl. apply elem_of_app. right. by left. }
  repeat case_decide; [| |done].
  - destruct (for_each (attr_body e) ∅ NODE_FIELDS) as [exn|node] eqn:Hc;
      [|done].
    intros [= ->]. destruct (Hcopy _ Hc) as [Hnone Hin].
    do 3 right. split; [done|]. right. left. by split.
  - destruct (for_each (attr_body e) ∅ WAY_FIELDS) as [exn|way] eqn:Hc;
      [|done].
    intros [= ->]. destruct (Hcopy _ Hc) as [Hnone Hin].
    do 3 right. split; [done|]. do 2 right. by split.
Qed.

Lemma key_error_names_missing_attribute_witness :
  attrib node_without_uid !! lit "uid" = None.
Proof.
  destruct (key_error_names_missing_attribute node_without_uid (lit "uid")
              node_without_uid_raises)
    as [[H _]|[[H _]|[[H _]|[H _]]]];
    [discriminate H|discriminate H|discriminate H|exact H].
Defined.

(** X6: secondary tags are handled the same way for nodes and for ways:
    the tag records of a shaped element depend on its [id] attribute and
    on its tag sub-elements only, so that two shaped elements with the
    same id and the same tag sub-elements, a node and a way for one, get
    the same tag records. *)
Theorem tags_same_for_node_and_way (e1 e2 : Element) (r1 r2 : Shaped) :
  attrib e1 !! lit "id" = attrib e2 !! lit "id" ->
  iter (lit "tag") e1 = iter (lit "tag") e2 ->
  shape_element e1 = inr (Some r1) -> shape_element e2 = inr (Some r2) ->
  shaped_tags r1 = shaped_tags r2.
Proof.
  intros Hid Htags H1 H2.
  destruct (shaped_has_id e1 r1 H1) as [id Hid1].
  assert (Hid2 : attrib e2 !! lit "id" = Some id) by congruence.
  apply shaped_scans in H1 as (H1 & _). apply shaped_scans in H2 as (H2 & _).
  apply (tag_loop_records e1 id _ [] _ Hid1) in H1.
  apply (tag_loop_records e2 id _ [] _ Hid2) in H2.
  rewrite H1, H2. by rewrite Htags.
Qed.

Lemma tags_same_for_node_and_way_witness :
  exists r2,
    shape_element fast_food_as_way = inr (Some r2) /\
    shaped_tags r2 =
    [mkTag (lit "757860928") (lit "amenity") (lit "fast_food") [];
     mkTag (lit "757860928") (lit "cuisine") (lit "sausage") [];
     mkTag (lit "757860928") (lit "name") (lit "Shelly's Tasty Freeze") []].
Proof.
  eexists. split.
  - vm_compute. reflexivity.
  - symmetry.
    apply (tags_same_for_node_and_way fast_food_node fast_food_as_way
             (ShapedNode (attrs fast_food_attrs) _) _ eq_refl eq_refl
             fast_food_node_shaped).
    vm_compute. reflexivity.
Defined.

(** ** The writers *)

Lemma writerow_extend (w : Sqlite3TableWriter) (row : Row) :
  writerow w row = extend w [row].
Proof. done. Qed.

Lemma extend_extend (w : Sqlite3TableWriter) (rows1 rows2 : list Row) :
  extend (extend w rows1) rows2 = extend w (rows1 ++ rows2).
Proof. unfold extend. simpl. by rewrite app_assoc. Qed.

Lemma extend_nil (w : Sqlite3TableWriter) : extend w [] = w.
Proof. destruct w. unfold extend. simpl. by rewrite app_nil_r. Qed.

Lemma writerows_extend (w : Sqlite3TableWriter) (rows : list Row) :
  writerows w rows = extend w rows.
Proof.
  unfold writerows. revert w. induction rows as [|row rows IH]; intros w; simpl.
  - by rewrite extend_nil.
  - by rewrite IH, writerow_extend, extend_extend.
Qed.

Lemma rows_of_one (f : Shaped -> list Row) (e : Element) :
  rows_of f [e] =
  match shape_element e with inr (Some el) => f el | _ => [] end.
Proof. unfold rows_of. csimpl. by rewrite app_nil_r. Qed.

Lemma rows_of_cons (f : Shaped -> list Row) (e : Element) (l : list Element) :
  rows_of f (e :: l) = rows_of f [e] ++ rows_of f l.
Proof. rewrite rows_of_one. done. Qed.

Lemma writers_after_nil (ws : Writers) : writers_after ws [] = ws.
Proof.
  destruct ws. unfold writers_after.
  change (rows_of _ []) with (@nil Row). by rewrite !extend_nil.
Qed.

Lemma writers_after_cons (ws : Writers) (e : Element) (l : list Element) :
  writers_after ws (e :: l) = writers_after (writers_after ws [e]) l.
Proof.
  unfold writers_after.
  cbn [nodes_writer node_tags_writer ways_writer way_nodes_writer
       way_tags_writer].
  rewrite !extend_extend. by rewrite <- !rows_of_cons.
Qed.

Lemma shaped_kind (e : Element) (el : Shaped) :
  shape_element e = inr (Some el) ->
  (tag e = lit "node" /\ exists node node_tags, el = ShapedNode node node_tags) \/
  (tag e = lit "way" /\
   exists way way_nodes way_tags, el = ShapedWay way way_nodes way_tags).
Proof.
  rewrite shape_element_unfold.
  destruct (scan_tags _ e) as [exn|tags]; [done|].
  destruct (scan_nd e) as [exn|[way_nodes nd_pos]]; [done|].
  repeat case_decide; [| |done].
  - destruct (for_each (attr_body e) ∅ NODE_FIELDS); [done|].
    intros [= <-]. left. split; [done|]. by eexists _, _.
  - destruct (for_each (attr_body e) ∅ WAY_FIELDS); [done|].
    intros [= <-]. right. split; [done|]. by eexists _, _, _.
Qed.

(** The subscripts of [process_map] find their keys: the tag of the
    element and the keys of its result go together. *)
Lemma write_element_shaped (ws : Writers) (e : Element) (el : Shaped) :
  shape_element e = inr (Some el) ->
  write_element ws e el = (writers_after ws [e], None).
Proof.
  intros Hel. unfold write_element, writers_after.
  rewrite !rows_of_one, Hel.
  destruct (shaped_kind e el Hel)
    as [[Htag (node & node_tags & ->)]|[Htag (way & wn & way_tags & ->)]].
  - rewrite decide_True by done. simpl.
    by rewrite writerows_extend, writerow_extend, !extend_nil.
  - rewrite decide_False by (rewrite Htag; done).
    rewrite decide_True by done. simpl.
    by rewrite !writerows_extend, writerow_extend, !extend_nil.
Qed.

(** ** The loop of [process_map] *)

Lemma tick_writers (st : LoopState) : writers (tick st) = writers st.
Proof. unfold tick. by destruct (100000 <? counter st + 1)%Z. Qed.

Lemma tick_batches (st : LoopState) :
  batches (printed (tick st)) = batches (printed st).
Proof.
  unfold tick, batches. destruct (100000 <? counter st + 1)%Z; [|done].
  simpl. rewrite omap_app. simpl. by rewrite app_nil_r.
Qed.

Lemma writers_after_unshaped (ws : Writers) (e : Element) :
  (forall el, shape_element e <> inr (Some el)) -> writers_after ws [e] = ws.
Proof.
  intros Hno. destruct ws. unfold writers_after. rewrite !rows_of_one.
  destruct (shape_element e) as [exn|[el|]]; [|by destruct (Hno el)|];
    by rewrite !extend_nil.
Qed.

Section loop.
Variable validator_validate : Shaped -> bool.
Variable validator_errors : Shaped -> list (str * str).
Variable validate : bool.

Local Abbreviation body := (loop_body validator_validate validator_errors validate).
Local Abbreviation run := (loop validator_validate validator_errors validate).
Local Abbreviation exception :=
  (turn_exception validator_validate validator_errors validate).

Lemma loop_body_turn (st : LoopState) (e : Element) :
  body st e =
  match exception e with
  | Some exn => (tick st, Some exn)
  | None => (after_turn st e, None)
  end.
Proof.
  unfold loop_body, turn_exception, after_turn.
  destruct (shape_element e) as [exn|[el|]] eqn:Hel; [done| |].
  - destruct (if validate then _ else _); [done|].
    rewrite (write_element_shaped _ e el Hel), tick_writers. done.
  - rewrite writers_after_unshaped by (intros el; rewrite Hel; done).
    rewrite <- (tick_writers st). by destruct (tick st).
Qed.

Lemma loop_returns (st : LoopState) (l : list Element) :
  Forall (fun e => exception e = None) l ->
  run st l = (fold_left after_turn l st, None).
Proof.
  intros Hall. revert st. induction Hall as [|e l He _ IH]; intros st; [done|].
  cbn [loop fold_left]. rewrite loop_body_turn, He. apply IH.
Qed.

Lemma loop_raises (st : LoopState) (before after : list Element) (e : Element)
    (exn : RunException) :
  Forall (fun e => exception e = None) before -> exception e = Some exn ->
  run st (before ++ e :: after) =
  (tick (fold_left after_turn before st), Some exn).
Proof.
  intros Hall He. revert st. induction Hall as [|x l Hx _ IH]; intros st.
  - cbn [app loop fold_left]. by rewrite loop_body_turn, He.
  - cbn [app loop fold_left]. rewrite loop_body_turn, Hx. apply IH.
Qed.

(** A list of elements either goes through, or has a first element whose
    turn raises. *)
Lemma first_exception (l : list Element) :
  Forall (fun e => exception e = None) l \/
  exists before e after exn,
    l = before ++ e :: after /\
    Forall (fun e => exception e = None) before /\ exception e = Some exn.
Proof.
  induction l as [|x l IH]; [left; constructor|].
  destruct (exception x) as [exn|] eqn:Hx.
  - right. exists [], x, l, exn. split_and!; [done|constructor|done].
  - destruct IH as [Hall|(before & e & after & exn & -> & Hbefore & He)].
    + left. by constructor.
    + right. exists (x :: before), e, after, exn.
      split_and!; [done|by constructor|done].
Qed.
End loop.

Lemma after_turns_writers (st : LoopState) (l : list Element) :
  writers (fold_left after_turn l st) = writers_after (writers st) l.
Proof.
  revert st. induction l as [|e l IH]; intros st.
  - by rewrite writers_after_nil.
  - cbn [fold_left]. by rewrite IH, writers_after_cons.
Qed.

Lemma after_turns_batches (st : LoopState) (l : list Element) :
  batches (printed (fold_left after_turn l st)) = batches (printed st).
Proof.
  revert st. induction l as [|e l IH]; intros st; [done|].
  cbn [fold_left]. rewrite IH. apply tick_batches.
Qed.

(** X7: a run that ends with an exception hands no batch to the database:
    the commits come after the loop, so the rows cached for the elements
    before the failure are lost with it. *)
Theorem failed_run_commits_nothing (validator_validate : Shaped -> bool)
    (validator_errors : Shaped -> list (str * str))
    (elements : list Element) (validate : bool) (exn : RunException) :
  (process_map validator_validate validator_errors elements validate).2
    = Some exn ->
  batches
    (process_map validator_validate validator_errors elements validate).1 = [].
Proof.
  unfold process_map.
  destruct (first_exception validator_validate validator_errors validate
              elements)
    as [Hall|(before & e & after & exn' & -> & Hbefore & He)].
  - by rewrite (loop_returns _ _ _ _ _ Hall).
  - rewrite (loop_raises _ _ _ _ _ _ _ _ Hbefore He). intros _.
    cbn [fst]. by rewrite tick_batches, after_turns_batches.
Qed.

Lemma failed_run_commits_nothing_witness :
  batches (process_map accept_all no_errors
             [fast_food_node; node_without_uid; ring_way] false).1 = [].
Proof.
  apply (failed_run_commits_nothing accept_all no_errors
           [fast_food_node; node_without_uid; ring_way] false
           (Raised (KeyError (lit "uid")))).
  vm_compute. reflexivity.
Defined.

Lemma turn_exception_unvalidated (vv : Shaped -> bool)
    (ve : Shaped -> list (str * str)) (e : Element) :
  (turn_exception vv ve false e = None <-> returns (shape_element e)) /\
  (forall exn, turn_exception vv ve false e = Some exn <->
     exists key, shape_element e = inl (KeyError key) /\
                 exn = Raised (KeyError key)).
Proof.
  unfold turn_exception, returns.
  destruct (shape_element e) as [[key]|[el|]]; split.
  - split; [done|by intros [? ?]].
  - intros exn. split.
    + intros [= <-]. by exists key.
    + by intros (key' & [= <-] & ->).
  - split; [by eexists|done].
  - intros exn. split; [done|by intros (? & ? & ?)].
  - split; [by eexists|done].
  - intros exn. split; [done|by intros (? & ? & ?)].
Qed.

Lemma turn_exception_accepted (vv : Shaped -> bool)
    (ve : Shaped -> list (str * str)) (validate : bool) (e : Element) :
  validate = false \/ (forall el, vv el = true) ->
  returns (shape_element e) -> turn_exception vv ve validate e = None.
Proof.
  intros Hv [r Hr]. unfold turn_exception, validate_element. rewrite Hr.
  destruct r as [el|]; [|done].
  destruct Hv as [->|Hv]; [done|]. rewrite Hv. by destruct validate.
Qed.

(** The two ways a run ends. *)
Lemma process_map_returns (vv : Shaped -> bool) (ve : Shaped -> list (str * str))
    (validate : bool) (elements : list Element) :
  Forall (fun e => turn_exception vv ve validate e = None) elements ->
  process_map vv ve elements validate =
  (printed (fold_left after_turn elements initial_state) ++
   commits (writers_after (writers initial_state) elements), None).
Proof.
  intros Hall. unfold process_map.
  by rewrite (loop_returns _ _ _ _ _ Hall), after_turns_writers.
Qed.

Lemma process_map_raises (vv : Shaped -> bool) (ve : Shaped -> list (str * str))
    (validate : bool) (before after : list Element) (e : Element)
    (exn : RunException) :
  Forall (fun e => turn_exception vv ve validate e = None) before ->
  turn_exception vv ve validate e = Some exn ->
  process_map vv ve (before ++ e :: after) validate =
  (printed (tick (fold_left after_turn before initial_state)), Some exn).
Proof.
  intros Hbefore He. unfold process_map.
  by rewrite (loop_raises _ _ _ _ _ _ _ _ Hbefore He).
Qed.

(** X8: without validation a run ends with an exception exactly when some
    element is not shaped, and the exception is then the [KeyError] of the
    first such element; the subscripts of [process_map] itself never
    raise. *)
Theorem run_raises_first_shaping_error (validator_validate : Shaped -> bool)
    (validator_errors : Shaped -> list (str * str))
    (elements : list Element) (exn : RunException) :
  (process_map validator_validate validator_errors elements false).2
    = Some exn <->
  exists before e after key,
    elements = before ++ e :: after /\
    Forall (fun e => returns (shape_element e)) before /\
    shape_element e = inl (KeyError key) /\ exn = Raised (KeyError key).
Proof.
  split.
  - destruct (first_exception validator_validate validator_errors false
                elements)
      as [Hall|(before & e & after & exn' & -> & Hbefore & He)].
    + by rewrite (process_map_returns _ _ _ _ Hall).
    + rewrite (process_map_raises _ _ _ _ _ _ _ Hbefore He).
      intros [= ->]. apply turn_exception_unvalidated in He as (key & He & ->).
      exists before, e, after, key. split_and!; try done.
      eapply Forall_impl; [exact Hbefore|]. intros x Hx.
      by apply (turn_exception_unvalidated validator_validate validator_errors).
  - intros (before & e & after & key & -> & Hbefore & He & ->).
    rewrite (process_map_raises validator_validate validator_errors false
               before after e (Raised (KeyError key))); [done| |].
    + eapply Forall_impl; [exact Hbefore|]. intros x Hx.
      by apply turn_exception_unvalidated.
    + apply turn_exception_unvalidated. by exists key.
Qed.

Lemma run_raises_first_shaping_error_witness :
  (process_map accept_all no_errors
     [fast_food_node; node_without_uid; ring_way] false).2
  = Some (Raised (KeyError (lit "uid"))).
Proof.
  apply (run_raises_first_shaping_error accept_all no_errors).
  exists [fast_food_node], node_without_uid, [ring_way], (lit "uid").
  split_and!; [reflexivity| |exact node_without_uid_raises|reflexivity].
  constructor; [|constructor]. eexists. exact fast_food_node_shaped.
Defined.

Lemma batches_commits (ws : Writers) :
  batches (commits ws) =
  [(tn (nodes_writer ws), tc (nodes_writer ws), cache_list (nodes_writer ws));
   (tn (node_tags_writer ws), tc (node_tags_writer ws),
    cache_list (node_tags_writer ws));
   (tn (ways_writer ws), tc (ways_writer ws), cache_list (ways_writer ws));
   (tn (way_nodes_writer ws), tc (way_nodes_writer ws),
    cache_list (way_nodes_writer ws));
   (tn (way_tags_writer ws), tc (way_tags_writer ws),
    cache_list (way_tags_writer ws))].
Proof. done. Qed.

(** X9: when every element is shaped, and validation is off or accepts
    every record, the run ends normally and hands the database five
    batches, in the order nodes, nodes_tags, ways, ways_nodes, ways_tags,
    each once, with the columns of its table and the rows of the elements
    in the order of the elements: a node gives one row to nodes and its
    tag records to nodes_tags, a way gives one row to ways, its way-node
    records to ways_nodes and its tag records to ways_tags, and an element
    of another kind gives nothing. *)
Theorem run_commits_rows_in_order (validator_validate : Shaped -> bool)
    (validator_errors : Shaped -> list (str * str))
    (elements : list Element) (validate : bool) :
  validate = false \/ (forall el, validator_validate el = true) ->
  Forall (fun e => returns (shape_element e)) elements ->
  (process_map validator_validate validator_errors elements validate).2
    = None /\
  batches (process_map validator_validate validator_errors elements validate).1
    = [(lit "nodes", NODE_FIELDS, rows_of nodes_rows elements);
       (lit "nodes_tags", NODE_TAGS_FIELDS, rows_of nodes_tags_rows elements);
       (lit "ways", WAY_FIELDS, rows_of ways_rows elements);
       (lit "ways_nodes", WAY_NODES_FIELDS, rows_of ways_nodes_rows elements);
       (lit "ways_tags", WAY_TAGS_FIELDS, rows_of ways_tags_rows elements)].
Proof.
  intros Hv Hall.
  assert (Hok : Forall (fun e => turn_exception validator_validate
                                   validator_errors validate e = None)
                       elements).
  { eapply Forall_impl; [exact Hall|]. intros e He.
    by apply turn_exception_accepted. }
  rewrite (process_map_returns _ _ _ _ Hok). split; [done|].
  cbn [fst]. unfold batches at 1. rewrite omap_app.
  fold (batches (printed (fold_left after_turn elements initial_state))).
  fold (batches (commits (writers_after (writers initial_state) elements))).
  rewrite after_turns_batches, batches_commits. done.
Qed.

Lemma run_commits_rows_in_order_witness :
  (process_map accept_all no_errors [fast_food_node; plain_relation; ring_way]
               true).2 = None.
Proof.
  apply (run_commits_rows_in_order accept_all no_errors
           [fast_food_node; plain_relation; ring_way] true).
  - right. reflexivity.
  - repeat constructor; eexists; vm_compute; reflexivity.
Defined.

(** X10: with validation on, a record the validator rejects stops the
    run: it ends with an exception and no batch reaches the database. *)
Theorem rejected_record_stops_run (validator_validate : Shaped -> bool)
    (validator_errors : Shaped -> list (str * str))
    (elements : list Element) (e : Element) (el : Shaped) :
  e ∈ elements -> shape_element e = inr (Some el) ->
  validator_validate el = false ->
  (exists exn,
     (process_map validator_validate validator_errors elements true).2
       = Some exn) /\
  batches (process_map validator_validate validator_errors elements true).1
    = [].
Proof.
  intros Hin Hel Hrej.
  destruct (first_exception validator_validate validator_errors true elements)
    as [Hall|(before & x & after & exn & -> & Hbefore & Hx)].
  - exfalso. rewrite Forall_forall in Hall. specialize (Hall e Hin).
    unfold turn_exception, validate_element in Hall. rewrite Hel, Hrej in Hall.
    by destruct (validator_errors el) as [|[? ?] ?].
  - rewrite (process_map_raises _ _ _ _ _ _ _ Hbefore Hx). cbn [fst snd].
    split; [by eexists|]. by rewrite tick_batches, after_turns_batches.
Qed.

Lemma rejected_record_stops_run_witness :
  (process_map reject_all one_error [fast_food_node; ring_way] true).2 =
  Some (ValidationException (lit "node")
          (lit "{'id': ['must be of integer type']}")).
Proof.
  destruct (rejected_record_stops_run reject_all one_error
              [fast_food_node; ring_way] ring_way _
              ltac:(right; left) ring_way_shaped eq_refl) as [[exn Hexn] _].
  rewrite Hexn. vm_compute in Hexn. symmetry. exact Hexn.
Defined.

(** *** The ticker *)

Lemma ticks_snoc (effects : list Effect) (d : Z) :
  ticks (effects ++ [print_parsing d]) = ticks effects ++ [d].
Proof. unfold ticks. by rewrite omap_app. Qed.

Lemma tick_invariant (st : LoopState) (n : Z) :
  ticker_invariant st n -> ticker_invariant (tick st) (n + 1).
Proof.
  unfold ticker_invariant, tick. intros (Hc & Hd & Hn & Hticks).
  destruct (Z.ltb_spec 100000 (counter st + 1)) as [Hlt|Hge]; simpl.
  - split_and!; [lia..|].
    rewrite ticks_snoc, Hticks.
    replace (Z.to_nat (counter_disp st + 1)) with (S (Z.to_nat (counter_disp st)))
      by lia.
    rewrite seq_S, fmap_app. simpl. do 2 f_equal. lia.
  - split_and!; [lia..|done].
Qed.

Lemma after_turns_invariant (st : LoopState) (l : list Element) (n : Z) :
  ticker_invariant st n ->
  ticker_invariant (fold_left after_turn l st) (n + Z.of_nat (length l)).
Proof.
  revert st n. induction l as [|e l IH]; intros st n Hst.
  - simpl. by rewrite Z.add_0_r.
  - cbn [fold_left length].
    replace (n + Z.of_nat (S (length l)))%Z
      with ((n + 1) + Z.of_nat (length l))%Z by lia.
    apply IH. apply tick_invariant in Hst.
    unfold ticker_invariant, after_turn in *. done.
Qed.

Lemma initial_invariant : ticker_invariant initial_state 0.
Proof. unfold ticker_invariant. simpl. split_and!; [lia..|done]. Qed.

(** X11: the ticker line is printed at every 100001st element, not at
    every 100000th: a run that ends normally over [n] elements has printed
    the ticker lines 1, 2, .., n / 100001, in that order. *)
Theorem ticker_every_100001 (validator_validate : Shaped -> bool)
    (validator_errors : Shaped -> list (str * str))
    (elements : list Element) (validate : bool) :
  (process_map validator_validate validator_errors elements validate).2
    = None ->
  ticks (process_map validator_validate validator_errors elements validate).1
    = Z.of_nat <$> seq 1 (Z.to_nat (Z.of_nat (length elements) / 100001)).
Proof.
  destruct (first_exception validator_validate validator_errors validate
              elements)
    as [Hall|(before & e & after & exn & -> & Hbefore & He)].
  - rewrite (process_map_returns _ _ _ _ Hall). intros _. cbn [fst].
    pose proof (after_turns_invariant _ elements 0 initial_invariant)
      as (Hc & Hd & Hn & Hticks).
    unfold ticks at 1. rewrite omap_app.
    fold (ticks (printed (fold_left after_turn elements initial_state))).
    change (omap _ (commits _)) with (@nil Z). rewrite app_nil_r, Hticks.
    do 3 f_equal.
    apply (Z.div_unique _ _ _
             (counter (fold_left after_turn elements initial_state))); lia.
  - by rewrite (process_map_raises _ _ _ _ _ _ _ Hbefore He).
Qed.

Lemma ticker_every_100001_witness :
  ticks (process_map accept_all no_errors [fast_food_node; ring_way] false).1
  = [].
Proof.
  apply (ticker_every_100001 accept_all no_errors [fast_food_node; ring_way]
                             false).
  vm_compute. reflexivity.
Defined.

Example ticker_at_element_100001 :
  ticks (process_map accept_all no_errors
           (replicate (Z.to_nat 100000) bare_relation) false).1 = [] /\
  ticks (process_map accept_all no_errors
           (replicate (Z.to_nat 100001) bare_relation) false).1 = [1%Z].
Proof. split; vm_compute; reflexivity. Qed.

(** *** The ids of the rows *)

Lemma shaped_ids (e : Element) (r : Shaped) :
  shape_element e = inr (Some r) ->
  exists id, shaped_attribs r !! lit "id" = Some id /\
    Forall (fun t => tag_id t = id) (shaped_tags r) /\
    Forall (fun n => nd_id n = id) (shaped_way_nodes r).
Proof.
  intros Hr. destruct (shaped_has_id e r Hr) as [id Hid]. exists id.
  revert Hr. rewrite shape_element_unfold.
  destruct (scan_tags _ e) as [exn|tags] eqn:Htags; [done|].
  destruct (scan_nd e) as [exn|[way_nodes nd_pos]] eqn:Hnd; [done|].
  repeat case_decide; [| |done].
  - destruct (for_each (attr_body e) ∅ NODE_FIELDS) as [exn|node] eqn:Hcopy;
      [done|].
    intros [= <-]. simpl. split_and!; [|by apply (tag_ids e)|constructor].
    rewrite (copy_lookup _ _ _ _ Hcopy).
    by rewrite decide_True by apply id_in_NODE_FIELDS.
  - destruct (for_each (attr_body e) ∅ WAY_FIELDS) as [exn|way] eqn:Hcopy;
      [done|].
    intros [= <-]. simpl.
    split_and!; [|by apply (tag_ids e)
                 |by apply (way_node_ids e id way_nodes nd_pos)].
    rewrite (copy_lookup _ _ _ _ Hcopy).
    by rewrite decide_True by apply id_in_WAY_FIELDS.
Qed.

Lemma rows_of_elem (f : Shaped -> list Row) (elements : list Element) (row : Row) :
  row ∈ rows_of f elements <->
  exists e el, e ∈ elements /\ shape_element e = inr (Some el) /\ row ∈ f el.
Proof.
  unfold rows_of. rewrite list_elem_of_bind. split.
  - intros (e & Hrow & He).
    destruct (shape_element e) as [exn|[el|]] eqn:Hel;
      [by apply elem_of_nil in Hrow| |by apply elem_of_nil in Hrow].
    by exists e, el.
  - intros (e & el & He & Hel & Hrow). exists e. by rewrite Hel.
Qed.

Lemma process_map_batches (vv : Shaped -> bool) (ve : Shaped -> list (str * str))
    (validate : bool) (elements : list Element) :
  batches (process_map vv ve elements validate).1 = [] \/
  batches (process_map vv ve elements validate).1
    = [(lit "nodes", NODE_FIELDS, rows_of nodes_rows elements);
       (lit "nodes_tags", NODE_TAGS_FIELDS, rows_of nodes_tags_rows elements);
       (lit "ways", WAY_FIELDS, rows_of ways_rows elements);
       (lit "ways_nodes", WAY_NODES_FIELDS, rows_of ways_nodes_rows elements);
       (lit "ways_tags", WAY_TAGS_FIELDS, rows_of ways_tags_rows elements)].
Proof.
  destruct (first_exception vv ve validate elements)
    as [Hall|(before & e & after & exn & -> & Hbefore & He)].
  - right. rewrite (process_map_returns _ _ _ _ Hall).
    cbn [fst]. unfold batches at 1. rewrite omap_app.
    fold (batches (printed (fold_left after_turn elements initial_state))).
    fold (batches (commits (writers_after (writers initial_state) elements))).
    by rewrite after_turns_batches, batches_commits.
  - left. rewrite (process_map_raises _ _ _ _ _ _ _ Hbefore He).
    cbn [fst]. by rewrite tick_batches, after_turns_batches.
Qed.

(** X12: the batches of a run keep the tables consistent: every row of
    nodes_tags carries the id of a row of nodes of the same run, and every
    row of ways_tags and of ways_nodes carries the id of a row of ways. *)
Theorem rows_refer_to_primary_rows (validator_validate : Shaped -> bool)
    (validator_errors : Shaped -> list (str * str))
    (elements : list Element) (validate : bool)
    (b1 b2 b3 b4 b5 : str * list str) (nodes nodes_tags ways ways_nodes
      ways_tags : list Row) :
  batches (process_map validator_validate validator_errors elements validate).1
    = [(b1, nodes); (b2, nodes_tags); (b3, ways); (b4, ways_nodes);
       (b5, ways_tags)] ->
  (forall t, TagRow t ∈ nodes_tags ->
     exists node, AttribRow node ∈ nodes /\ node !! lit "id" = Some (tag_id t)) /\
  (forall t, TagRow t ∈ ways_tags ->
     exists way, AttribRow way ∈ ways /\ way !! lit "id" = Some (tag_id t)) /\
  (forall n, WayNodeRow n ∈ ways_nodes ->
     exists way, AttribRow way ∈ ways /\ way !! lit "id" = Some (nd_id n)).
Proof.
  destruct (process_map_batches validator_validate validator_errors validate
              elements) as [->| ->]; [done|].
  intros [= _ <- _ <- _ <- _ <- _ <-]. split_and!.
  - intros t (e & el & He & Hel & Hrow)%rows_of_elem.
    destruct (shaped_ids e el Hel) as (id & Hid & Htags & _).
    destruct el as [node node_tags|]; [|by apply elem_of_nil in Hrow].
    simpl in *. apply list_elem_of_fmap in Hrow as (t' & [= ->] & Ht').
    exists node. split.
    + apply rows_of_elem. exists e, (ShapedNode node node_tags).
      split_and!; [done|done|]. by left.
    + rewrite Forall_forall in Htags. by rewrite (Htags _ Ht').
  - intros t (e & el & He & Hel & Hrow)%rows_of_elem.
    destruct (shaped_ids e el Hel) as (id & Hid & Htags & _).
    destruct el as [|way way_nodes way_tags]; [by apply elem_of_nil in Hrow|].
    simpl in *. apply list_elem_of_fmap in Hrow as (t' & [= ->] & Ht').
    exists way. split.
    + apply rows_of_elem. exists e, (ShapedWay way way_nodes way_tags).
      split_and!; [done|done|]. by left.
    + rewrite Forall_forall in Htags. by rewrite (Htags _ Ht').
  - intros n (e & el & He & Hel & Hrow)%rows_of_elem.
    destruct (shaped_ids e el Hel) as (id & Hid & _ & Hnds).
    destruct el as [|way way_nodes way_tags]; [by apply elem_of_nil in Hrow|].
    simpl in *. apply list_elem_of_fmap in Hrow as (n' & [= ->] & Hn').
    exists way. split.
    + apply rows_of_elem. exists e, (ShapedWay way way_nodes way_tags).
      split_and!; [done|done|]. by left.
    + rewrite Forall_forall in Hnds. by rewrite (Hnds _ Hn').
Qed.

Lemma rows_refer_to_primary_rows_witness :
  exists way,
    AttribRow way ∈ rows_of ways_rows [fast_food_node; ring_way] /\
    way !! lit "id" = Some (lit "209809850").
Proof.
  destruct (process_map_batches accept_all no_errors false
              [fast_food_node; ring_way]) as [H|H].
  - vm_compute in H. discriminate H.
  - destruct (rows_refer_to_primary_rows _ _ _ _ _ _ _ _ _ _ _ _ _ _ H)
      as (_ & Htags & _).
    apply (Htags (mkTag (lit "209809850") (lit "building") (lit "yes") [])).
    vm_compute. do 3 right. left.
Defined.

(** ** The record of a key with a colon *)

Lemma tag_record_cut (id : str) (t : Element) (pre post v : str) :
  attrib t !! lit "k" = Some (pre ++ colon :: post) ->
  accepted (pre ++ colon :: post) = true -> colon ∉ pre ->
  attrib t !! lit "v" = Some v ->
  tag_record id t = Some (mkTag id post v pre).
Proof.
  intros Hk Hacc Hpre Hv. unfold tag_record. rewrite Hk. simpl.
  rewrite Hacc, Hv. simpl. by rewrite type_and_key_cut.
Qed.

(** C7: when a node or a way is shaped, every tag sub-element whose key is
    accepted and has a colon has its record among the tag records of the
    result, with the id of the element and the value of the tag; the type
    of that record is what stands before the first colon of the key and
    its key is everything after it, later colons included.  The loop adds
    that record, and no other, for the tag.  The key [addr:street:name] is
    accepted and gives the type [addr] and the key [street:name]. *)
Theorem colon_key_split_at_first_colon (e t : Element) (r : Shaped)
    (pre post : str) :
  shape_element e = inr (Some r) ->
  t ∈ iter (lit "tag") e ->
  attrib t !! lit "k" = Some (pre ++ colon :: post) ->
  accepted (pre ++ colon :: post) = true -> colon ∉ pre ->
  (exists id v,
     attrib e !! lit "id" = Some id /\ attrib t !! lit "v" = Some v /\
     mkTag id post v pre ∈ shaped_tags r /\
     (forall tags, tag_body PROBLEMCHARS_search e tags t =
                   inr (tags ++ [mkTag id post v pre])) /\
     shaped_tags r = omap (tag_record id) (iter (lit "tag") e) /\
     tag_record id t = Some (mkTag id post v pre)) /\
  accepted (lit "addr:street:name") = true /\
  type_and_key (lit "addr:street:name") = (lit "addr", lit "street:name").
Proof.
  intros Hr Hin Hk Hacc Hpre. split_and!; [|done|done].
  destruct (shaped_has_id e r Hr) as [id Hid].
  destruct (shaped_scans e r Hr) as (Hscan & _).
  assert (Hret : returns (scan_tags PROBLEMCHARS_search e)) by by eexists.
  apply scan_tags_returns in Hret. rewrite Forall_forall in Hret.
  destruct (Hret t Hin) as (k & Hk' & Hread).
  assert (k = pre ++ colon :: post) as -> by congruence.
  destruct (Hread Hacc) as [_ [v Hv]].
  pose proof (tag_record_cut id t pre post v Hk Hacc Hpre Hv) as Hrec.
  apply (tag_loop_records e id _ [] _ Hid) in Hscan. simpl in Hscan.
  exists id, v. split_and!; [done|done| | |done|done].
  - rewrite Hscan. apply list_elem_of_omap. by exists t.
  - intros tags. rewrite (tag_body_accepted e t tags _ id v) by done.
    by rewrite type_and_key_cut.
Qed.

Lemma colon_key_split_at_first_colon_witness :
  mkTag (lit "209809850") (lit "street:name") (lit "Lexington") (lit "addr")
  ∈ [mkTag (lit "209809850") (lit "housenumber") (lit "1412") (lit "addr");
     mkTag (lit "209809850") (lit "street") (lit "West Lexington St.")
           (lit "addr");
     mkTag (lit "209809850") (lit "street:name") (lit "Lexington")
           (lit "addr");
     mkTag (lit "209809850") (lit "building") (lit "yes") []].
Proof.
  destruct (colon_key_split_at_first_colon ring_way
              (elem "tag" [("k", "addr:street:name"); ("v", "Lexington")] [])
              _ (lit "addr") (lit "street:name") ring_way_shaped)
    as [(id & v & Hid & Hv & Hin & _) _].
  - vm_compute. do 2 right. left.
  - vm_compute. reflexivity.
  - vm_compute. reflexivity.
  - compute_done.
  - injection Hid as <-. injection Hv as <-. exact Hin.
Defined.
